(** * plot_topdown.py: extraction and plotting of the Back-End Bound metric

    A shallow embedding of [plot_topdown.py].  The script walks the
    immediate subdirectories of a results directory, reads one summary
    file per subdirectory, extracts one percentage with a regular
    expression, averages the percentages and hands a bar chart to
    matplotlib.

    The embedding keeps the shape of the script:
    - text ([str]) is [string]; a character is a code point below 256;
    - [float] is IEEE 754 binary64, taken from [SpecFloat];
    - the file system is a snapshot mapping a path to what it resolves to;
    - [print], [open] and the matplotlib calls are recorded, in order, in
      a trace; [sys.exit] and exceptions are outcomes of a computation;
    - a matplotlib call is recorded when it is made; [plt.ylim] and
      [plt.tight_layout] can then raise;
    - the dictionary [apps_data] is a [gmap string float]. *)

From Stdlib Require Import ZArith NArith Ascii String List Lia.
From Stdlib Require Import Floats.SpecFloat.
From stdpp Require Import base option list sorting gmap strings.

Local Open Scope string_scope.
Local Open Scope list_scope.

(** ** Characters and character classes *)

Definition code (c : ascii) : N := N_of_ascii c.

(** [\s] of a [str] pattern on code points below 256: TAB..CR, FS..US,
    SPACE, NEL and NBSP. *)
Definition is_space (c : ascii) : bool :=
  let n := code c in
  ((9 <=? n) && (n <=? 13) || (28 <=? n) && (n <=? 32)
   || (n =? 133) || (n =? 160))%N.

(** [\d] of a [str] pattern on code points below 256: the ASCII digits. *)
Definition is_digit (c : ascii) : bool :=
  let n := code c in ((48 <=? n) && (n <=? 57))%N.

(** The class [[\d.]]: inside brackets the dot is a literal dot. *)
Definition is_digit_or_dot (c : ascii) : bool :=
  is_digit c || Ascii.eqb c ".".

(** ** Regular expressions

    The fragment of [re] syntax the script uses, with the matching
    strategy of the [re] module: greedy repetition with backtracking,
    written in continuation-passing style. *)
Module Re.

Inductive regex : Type :=
| Lit (l : string)                 (* a literal run of characters *)
| Rep1 (cls : ascii -> bool)       (* cls+ , greedy *)
| Grp (r : regex)                  (* ( r ), capturing group 1 *)
| Cat (r1 r2 : regex).             (* r1 r2 *)

(** The match object: only group 1 is ever read. *)
Record match_obj : Type := MatchObj { group1 : option string }.

(** [strip l s] is [s] without its prefix [l], when [l] is a prefix. *)
Fixpoint strip (l s : string) : option string :=
  match l, s with
  | EmptyString, _ => Some s
  | String a l', String b s' => if Ascii.eqb a b then strip l' s' else None
  | String _ _, EmptyString => None
  end.

(** Greedy [cls+]: take as many characters as possible, and give
    characters back one at a time while the continuation fails. *)
Fixpoint rep1 {A} (cls : ascii -> bool) (s : string)
         (k : string -> option A) : option A :=
  match s with
  | EmptyString => None
  | String c s' =>
      if cls c then
        match rep1 cls s' k with
        | Some x => Some x
        | None => k s'
        end
      else None
  end.

(** The text between the position where [s] starts and the position
    where its suffix [s'] starts. *)
Definition consumed (s s' : string) : string :=
  String.substring 0 (String.length s - String.length s') s.

Fixpoint rmatch {A} (r : regex) (s : string) (g : option string)
         (k : string -> option string -> option A) : option A :=
  match r with
  | Lit l => match strip l s with Some s' => k s' g | None => None end
  | Rep1 cls => rep1 cls s (fun s' => k s' g)
  | Grp r' => rmatch r' s g (fun s' _ => k s' (Some (consumed s s')))
  | Cat r1 r2 => rmatch r1 s g (fun s' g' => rmatch r2 s' g' k)
  end.

(** [re.match]: a match anchored at the start of [s]. *)
Definition match_here (r : regex) (s : string) : option match_obj :=
  rmatch r s None (fun _ g => Some (MatchObj g)).

(** [re.search]: the match at the leftmost position that has one. *)
Fixpoint search (r : regex) (s : string) : option match_obj :=
  match match_here r s with
  | Some m => Some m
  | None =>
      match s with
      | EmptyString => None
      | String _ s' => search r s'
      end
  end.

End Re.

(** The pattern [r'Back-End Bound:\s+([\d.]+)%']. *)
Definition backend_pattern : Re.regex :=
  Re.Cat (Re.Lit "Back-End Bound:")
    (Re.Cat (Re.Rep1 is_space)
       (Re.Cat (Re.Grp (Re.Rep1 is_digit_or_dot)) (Re.Lit "%"))).

(** ** Floating point: IEEE 754 binary64 *)
Module Float64.

Definition prec : Z := 53.
Definition emax : Z := 1024.

Abbreviation float := spec_float.

Definition fadd : float -> float -> float := SFadd prec emax.
Definition fsub : float -> float -> float := SFsub prec emax.
Definition fmul : float -> float -> float := SFmul prec emax.
Definition fdiv : float -> float -> float := SFdiv prec emax.

(** [x > y] on floats; false when either side is a NaN. *)
Definition fgt (x y : float) : bool := SFltb y x.

(** The float nearest to [m / 10^k] (ties to even), [+inf] when that
    is out of range: the value CPython gives a decimal literal with
    digits [m] and [k] digits after the point. *)
Definition of_decimal (m : N) (k : nat) : float :=
  match m with
  | N0 => S754_zero false
  | Npos p =>
      fdiv (S754_finite false p 0)
           (S754_finite false (Z.to_pos (10 ^ Z.of_nat k)) 0)
  end.

(** Conversion of a non-negative [int] to [float]. *)
Definition of_nat (n : nat) : float := of_decimal (N.of_nat n) 0.

Definition is_nan (x : float) : bool :=
  match x with S754_nan => true | _ => false end.

Definition is_finite (x : float) : bool :=
  match x with S754_zero _ | S754_finite _ _ _ => true | _ => false end.

(** Sign bit clear and not a NaN: [+0.0], a positive finite number or
    [+inf]. *)
Definition is_nonneg (x : float) : bool :=
  match x with
  | S754_zero false | S754_finite false _ _ | S754_infinity false => true
  | _ => false
  end.

End Float64.
Import Float64.

(** ** [float(s)] on captured text

    [float] is only ever applied to group 1 of [backend_pattern], a
    non-empty string of digits and dots.  On such strings it accepts
    digits with at most one dot and at least one digit; anything else
    raises [ValueError].  (Signs, exponents and the like, which [float]
    also accepts, cannot occur in a capture and are rejected here.) *)

(** The digits at the start of [s]: the number they continue from [acc],
    how many they are, and what follows them. *)
Fixpoint read_digits (s : string) (acc : N) : N * nat * string :=
  match s with
  | String c s' =>
      if is_digit c then
        let '(v, n, r) := read_digits s' (10 * acc + (code c - 48))%N in
        (v, S n, r)
      else (acc, 0, s)
  | EmptyString => (acc, 0, s)
  end.

Definition parse_float (s : string) : option float :=
  let '(i, ni, r) := read_digits s 0%N in
  match r with
  | EmptyString => if Nat.eqb ni 0 then None else Some (of_decimal i 0)
  | String c r' =>
      if Ascii.eqb c "." then
        let '(m, nf, r'') := read_digits r' i in
        match r'' with
        | EmptyString =>
            if Nat.eqb (ni + nf) 0 then None else Some (of_decimal m nf)
        | String _ _ => None
        end
      else None
  end.

(** ** Exceptions, the file system and the trace *)

Inductive exn : Type :=
| FileNotFoundError (path : string)
| NotADirectoryError (path : string)
| IsADirectoryError (path : string)
| PermissionError (path : string)
| ReadFailure (reason : string)   (* whatever else [open] or [read] raises *)
| ValueError (arg : string)
| TypeError
| KeyError (key : string)
| IndexError
| ZeroDivisionError.

Inductive file_state : Type :=
| Readable (content : string)
| Unreadable (e : exn).

Inductive entry : Type :=
| File (st : file_state)
| Dir (names : list string)       (* in the order [os.listdir] gives them *)
| LockedDir (e : exn).            (* a directory [os.listdir] fails on, with [e] *)

(** What each path resolves to; [None] for a path that does not exist. *)
Definition filesystem : Type := string -> option entry.

Inductive message : Type :=
| MsgErrorReading (file : string) (e : exn)
| MsgDirNotFound (base_dir : string)
| MsgUsage (prog : string)
| MsgFound (app_dir : string) (backend_bound : float)
| MsgNoData
| MsgSummaryTitle
| MsgSummaryHeader
| MsgRule
| MsgRow (display_name : string) (value : float)
| MsgAverage (average_value : float)
| MsgSavedAs
| MsgSavedFile (fname : string).

(** The calls into matplotlib; keyword arguments that are constants of
    the presentation (colours, line styles, font sizes) are left out. *)
Inductive plot_call : Type :=
| Figure (w h : nat)
| RcParamsUpdate
| Gca
| Grid
| Bar (x height : list float) (width : float)
| Axvline (x : float)
| SetXticks (x : list float)
| SetXticklabels (labels : list string)
| SubplotsAdjust
| Yticks
| Ylabel (text : string)
| Ylim (bottom : nat) (top : float)
| SetMajorFormatter
| SpineSetVisible (spine : string)
| SpineSetColor (spine : string)
| SpineSetLinewidth (spine : string)
| TightLayout
| Savefig (fname : string)
| Show.

Inductive event : Type :=
| Open (path : string)            (* [open(path, 'r')] followed by [read()] *)
| Print (m : message)
| Plot (c : plot_call).

(** ** Computations: a trace and an outcome *)

Inductive outcome (A : Type) : Type :=
| Return (a : A)
| Raise (e : exn)
| SysExit (status : Z).
Arguments Return {A} a.
Arguments Raise {A} e.
Arguments SysExit {A} status.

Definition M (A : Type) : Type := list event * outcome A.

Definition trace {A} (m : M A) : list event := fst m.
Definition result {A} (m : M A) : outcome A := snd m.

#[export] Instance M_ret : MRet M := fun A a => ([], Return a).

#[export] Instance M_bind : MBind M := fun A B f m =>
  match m with
  | (t, Return a) => let '(t', o) := f a in (t ++ t', o)
  | (t, Raise e) => (t, Raise e)
  | (t, SysExit c) => (t, SysExit c)
  end.

Definition raise {A} (e : exn) : M A := ([], Raise e).
Definition sys_exit {A} (status : Z) : M A := ([], SysExit status).
Definition emit (e : event) : M unit := ([e], Return tt).
Definition print (m : message) : M unit := emit (Print m).
Definition plt (c : plot_call) : M unit := emit (Plot c).

(** [plt.ylim(bottom, top)]: matplotlib refuses a limit that is a NaN
    or infinite, with a [ValueError]. *)
Definition ylim (bottom : nat) (top : float) : M unit :=
  plt (Ylim bottom top);;
  if is_finite top then mret tt
  else raise (ValueError "Axis limits cannot be NaN or Inf").

(** [try: body except Exception as e: handler e].  [SystemExit] is not
    an [Exception] and passes through. *)
Definition try_except {A} (body : M A) (handler : exn -> M A) : M A :=
  match body with
  | (t, Raise e) => let '(t', o) := handler e in (t ++ t', o)
  | (t, o) => (t, o)
  end.

(** The status the interpreter exits with: 0 at the end of the script,
    the argument of [sys.exit], 1 after an uncaught exception. *)
Definition exit_status {A} (m : M A) : Z :=
  match result m with
  | Return _ => 0
  | SysExit c => c
  | Raise _ => 1
  end.

(** ** [os] and [os.path] (POSIX) *)

Definition path_exists (fs : filesystem) (p : string) : bool :=
  match fs p with Some _ => true | None => false end.

Definition isdir (fs : filesystem) (p : string) : bool :=
  match fs p with Some (Dir _) | Some (LockedDir _) => true | _ => false end.

Definition listdir (fs : filesystem) (p : string) : M (list string) :=
  match fs p with
  | Some (Dir names) => mret names
  | Some (LockedDir e) => raise e
  | Some (File _) => raise (NotADirectoryError p)
  | None => raise (FileNotFoundError p)
  end.

Fixpoint endswith_slash (s : string) : bool :=
  match s with
  | EmptyString => false
  | String c EmptyString => Ascii.eqb c "/"
  | String _ s' => endswith_slash s'
  end.

Definition startswith_slash (s : string) : bool :=
  match s with String c _ => Ascii.eqb c "/" | EmptyString => false end.

(** [os.path.join(a, b)] *)
Definition path_join (a b : string) : string :=
  if startswith_slash b then b
  else if String.eqb a "" || endswith_slash a then a +:+ b
  else a +:+ "/" +:+ b.

(** [s.rstrip('/')] *)
Fixpoint rstrip_slash (s : string) : string :=
  match s with
  | EmptyString => EmptyString
  | String c s' =>
      match rstrip_slash s' with
      | EmptyString => if Ascii.eqb c "/" then EmptyString else String c EmptyString
      | r => String c r
      end
  end.

(** [os.path.expanduser(path)] for a [path] that starts with [~/];
    [home] is the home directory of the user, when there is one. *)
Definition expanduser (home : option string) (path : string) : string :=
  match path, home with
  | String "~" (String "/" _ as rest), Some h =>
      let r := rstrip_slash h +:+ rest in
      if String.eqb r "" then "/" else r
  | _, _ => path
  end.

(** [open(path, 'r')] and [f.read()] *)
Definition open_read (fs : filesystem) (path : string) : M string :=
  emit (Open path);;
  match fs path with
  | Some (File (Readable content)) => mret content
  | Some (File (Unreadable e)) => raise e
  | Some (Dir _) | Some (LockedDir _) => raise (IsADirectoryError path)
  | None => raise (FileNotFoundError path)
  end.

(** [float(s)] *)
Definition py_float (s : string) : M float :=
  match parse_float s with
  | Some v => mret v
  | None => raise (ValueError s)
  end.

(** [match.group(1)] passed to [float]: a group that did not take part
    in the match is [None], which [float] refuses. *)
Definition float_of_group (g : option string) : M float :=
  match g with
  | Some s => py_float s
  | None => raise TypeError
  end.

(** ** [extract_backend_bound] *)
Definition extract_backend_bound (fs : filesystem) (summary_file : string)
  : M (option float) :=
  try_except
    (content ← open_read fs summary_file;
     match Re.search backend_pattern content with
     | Some m => v ← float_of_group (Re.group1 m); mret (Some v)
     | None => mret None
     end)
    (fun e => print (MsgErrorReading summary_file e);; mret None).

(** ** [get_full_app_name] *)
Definition name_map : list (string * string) :=
  [ ("bfs_gnutella31", "breadth first search");
    ("dfs_gnutella31", "depth first search");
    ("pr_gnutella31", "pagerank");
    ("tc_gnutella31", "triangle counting");
    ("sssp_ego_fb", "single source shortest path") ].

(** [d.get(key, default)] for a dictionary given by its items *)
Fixpoint dict_get (d : list (string * string)) (key default : string) : string :=
  match d with
  | [] => default
  | (k, v) :: d' => if String.eqb k key then v else dict_get d' key default
  end.

Definition get_full_app_name (app : string) : string :=
  dict_get name_map app app.

(** ** Built-ins used by [main] *)

(** [sorted(l)] on strings: a stable merge sort under the order of
    [str], which is lexicographic on code points ([String.le]). *)
Definition sorted (l : list string) : list string := merge_sort String.le l.

(** [d.keys()] *)
Definition keys (d : gmap string float) : list string := (map_to_list d).*1.

(** [d[key]] *)
Definition getitem (d : gmap string float) (key : string) : M float :=
  match d !! key with
  | Some v => mret v
  | None => raise (KeyError key)
  end.

(** [l[i]] for [i >= 0] *)
Definition getitem_list (l : list float) (i : nat) : M float :=
  match l !! i with
  | Some v => mret v
  | None => raise IndexError
  end.

(** [l[:-1]] *)
Definition but_last {A} (l : list A) : list A := take (length l - 1) l.

(** [x / n] for a float [x] and an int [n >= 0] *)
Definition truediv (x : float) (n : nat) : M float :=
  match n with
  | O => raise ZeroDivisionError
  | S _ => mret (fdiv x (of_nat n))
  end.

(** [max(l)]: the first element no later element is greater than. *)
Definition py_max (l : list float) : M float :=
  match l with
  | [] => raise (ValueError "max() arg is an empty sequence")
  | v :: l' => mret (fold_left (fun m x => if fgt x m then x else m) l' v)
  end.

(** [sum] by repeated addition from the int [0], as CPython does up to
    version 3.11. *)
Definition seq_sum (l : list float) : float :=
  fold_left fadd l (S754_zero false).

(** The four spines of an [Axes], in the order [ax.spines] holds them. *)
Definition axes_spines : list string := ["left"; "right"; "bottom"; "top"].

Definition average_label : string := "$\mathbf{Average}$".

Definition bar_spacing : float := of_decimal 1 1.     (* 0.1 *)
Definition width : float := of_decimal 5 2.           (* 0.05 *)

(** What the process is started with. *)
Record process : Type := {
  argv0 : string;                 (* sys.argv[0] *)
  args : list string;             (* sys.argv[1:] *)
  home : option string            (* the home directory [~] expands to *)
}.

Definition summary_name (app_dir : string) : string :=
  app_dir +:+ "_topdown_summary.txt".

(** ** [main] *)
Section Main.

(** [sum] on a list of floats.  CPython adds the items in order; from
    version 3.12 on it also carries a compensation term, so the last
    bits of the result depend on the interpreter. *)
Variable py_sum : list float -> float.

(** Whether matplotlib can lay out a tick label.  Text between dollar
    signs is mathtext and has to parse; the parser is matplotlib's, and
    only its verdict enters here. *)
Variable drawable : string -> bool.

Variable fs : filesystem.

(** The body of [for app_dir in sorted(os.listdir(base_dir))]. *)
Fixpoint scan (base_dir : string) (dirs : list string)
         (apps_data : gmap string float) : M (gmap string float) :=
  match dirs with
  | [] => mret apps_data
  | app_dir :: rest =>
      let app_path := path_join base_dir app_dir in
      if negb (isdir fs app_path) then scan base_dir rest apps_data
      else
        let summary_file := path_join app_path (summary_name app_dir) in
        if path_exists fs summary_file then
          backend_bound ← extract_backend_bound fs summary_file;
          match backend_bound with
          | Some v =>
              print (MsgFound app_dir v);;
              scan base_dir rest (<[app_dir := v]> apps_data)
          | None => scan base_dir rest apps_data
          end
        else scan base_dir rest apps_data
  end.

(** Lines 57-71: the dictionary filled from the sorted listing. *)
Definition aggregate (base_dir : string) : M (gmap string float) :=
  names ← listdir fs base_dir;
  scan base_dir (sorted names) ∅.

(** The body of [for i, app in enumerate(apps[:-1])], from index [i]. *)
Fixpoint print_rows (values : list float) (i : nat) (apps : list string)
  : M unit :=
  match apps with
  | [] => mret tt
  | app :: rest =>
      let display_name := get_full_app_name app in
      v ← getitem_list values i;
      print (MsgRow display_name v);;
      print_rows values (S i) rest
  end.

(** The body of [for spine in ax.spines.values()]. *)
Fixpoint style_spines (spines : list string) : M unit :=
  match spines with
  | [] => mret tt
  | spine :: rest =>
      plt (SpineSetVisible spine);;
      plt (SpineSetColor spine);;
      plt (SpineSetLinewidth spine);;
      style_spines rest
  end.

(** [plt.tight_layout()]: the tick labels are laid out, and a label
    matplotlib cannot lay out ends the call with a [ValueError]. *)
Definition tight_layout (labels : list string) : M unit :=
  plt TightLayout;;
  if forallb drawable labels then mret tt
  else raise (ValueError "ParseException").

Definition base_dir_of (p : process) : string :=
  match args p with
  | a :: _ => a
  | [] => expanduser (home p) "~/Topdown/crono-results"
  end.

(** Lines 101-162: the chart. *)
Definition render (apps : list string) (values : list float)
           (apps_labels : list string) : M unit :=
  let x := (fun i => fmul (of_nat i) bar_spacing) <$> seq 0 (length apps) in
  plt (Figure 16 8);;
  plt RcParamsUpdate;;
  plt Gca;;
  plt Grid;;
  plt (Bar x values width);;
  (if decide (1 < length apps) then
     let separator_x :=
       fmul (fsub (of_nat (length apps)) (of_decimal 15 1)) bar_spacing in
     plt (Axvline separator_x)
   else mret tt);;
  plt (SetXticks x);;
  plt (SetXticklabels apps_labels);;
  plt SubplotsAdjust;;
  plt Yticks;;
  plt (Ylabel ("Back-End Bound" +:+ String "010" "(% of Pipeline Slots)"));;
  m ← py_max values;
  let y_max := fadd m (of_nat 5) in
  ylim 0 y_max;;
  plt SetMajorFormatter;;
  style_spines axes_spines;;
  tight_layout apps_labels;;
  plt (Savefig "backend_bound_plot.png");;
  plt (Savefig "backend_bound_plot.pdf");;
  plt (Savefig "backend_bound_plot.eps");;
  print MsgSavedAs;;
  print (MsgSavedFile "backend_bound_plot.png");;
  print (MsgSavedFile "backend_bound_plot.pdf");;
  print (MsgSavedFile "backend_bound_plot.eps");;
  plt Show.

(** Lines 77-99: ordering, the average and the printed summary. *)
Definition summarize (apps_data : gmap string float) : M unit :=
  let apps := sorted (keys apps_data) in
  values ← mapM (getitem apps_data) apps;
  average_value ← truediv (py_sum values) (length values);
  let apps := apps ++ ["Average"] in
  let values := values ++ [average_value] in
  let apps_labels :=
    (get_full_app_name <$> but_last apps) ++ [average_label] in
  print MsgSummaryTitle;;
  print MsgSummaryHeader;;
  print MsgRule;;
  print_rows values 0 (but_last apps);;
  print MsgRule;;
  print (MsgAverage average_value);;
  render apps values apps_labels.

Definition main (p : process) : M unit :=
  let base_dir := base_dir_of p in
  (if negb (path_exists fs base_dir) then
     print (MsgDirNotFound base_dir);;
     print (MsgUsage (argv0 p));;
     sys_exit 1
   else mret tt);;
  apps_data ← aggregate base_dir;
  (if decide (apps_data = ∅) then
     print MsgNoData;;
     sys_exit 1
   else mret tt);;
  summarize apps_data.

End Main.


(** ** Notions used to state the properties *)

(** Every character of [s] is in the class [cls]. *)
Fixpoint all_chars (cls : ascii -> bool) (s : string) : bool :=
  match s with
  | EmptyString => true
  | String c s' => cls c && all_chars cls s'
  end.

(** The first character of [s], if any, is in [cls]. *)
Definition starts_in (cls : ascii -> bool) (s : string) : bool :=
  match s with
  | EmptyString => false
  | String c _ => cls c
  end.

(** The longest prefix of [s] in [cls], and what follows it. *)
Fixpoint span (cls : ascii -> bool) (s : string) : string * string :=
  match s with
  | EmptyString => ("", "")
  | String c s' =>
      if cls c then let '(run, rest) := span cls s' in (String c run, rest)
      else ("", s)
  end.


(** The pattern read as a scanner anchored at the start of [s]: the
    literal, a non-empty run of white space, a non-empty run of digits
    and dots (the capture), a percent sign. *)
Definition scan_here (s : string) : option string :=
  match Re.strip "Back-End Bound:" s with
  | None => None
  | Some s1 =>
      let '(ws, s2) := span is_space s1 in
      if String.eqb ws "" then None
      else
        let '(cap, s3) := span is_digit_or_dot s2 in
        if String.eqb cap "" then None
        else match Re.strip "%" s3 with
             | Some _ => Some cap
             | None => None
             end
  end.

(** [text] has an occurrence of the pattern that starts right after
    [pre] and whose group 1 is [cap]. *)
Definition occurs_at (text pre cap : string) : Prop :=
  exists ws post,
    text = pre +:+ "Back-End Bound:" +:+ ws +:+ cap +:+ "%" +:+ post
    /\ ws <> "" /\ all_chars is_space ws = true
    /\ cap <> "" /\ all_chars is_digit_or_dot cap = true.

(** The pattern occurs somewhere in [text]. *)
Definition occurs (text : string) : Prop :=
  exists pre cap, occurs_at text pre cap.

(** The occurrence after [pre] is the leftmost one. *)
Definition first_occurrence (text pre cap : string) : Prop :=
  occurs_at text pre cap
  /\ forall pre' cap', occurs_at text pre' cap' ->
       String.length pre <= String.length pre'.

(** The paths of the [open] calls of a trace, in order. *)
Definition opens (t : list event) : list string :=
  omap (fun e => match e with Open p => Some p | _ => None end) t.

(** The plot calls of a trace, in order. *)
Definition plots (t : list event) : list plot_call :=
  omap (fun e => match e with Plot c => Some c | _ => None end) t.

(** The messages printed by a trace, in order. *)
Definition prints (t : list event) : list message :=
  omap (fun e => match e with Print m => Some m | _ => None end) t.

(** The file names of the [savefig] calls of a trace, in order. *)
Definition saved (t : list event) : list string :=
  omap (fun c => match c with Savefig f => Some f | _ => None end) (plots t).

(** The exception [open] and [read] end with on [f], if any. *)
Definition read_error (fs : filesystem) (f : string) : option exn :=
  match fs f with
  | Some (File (Readable _)) => None
  | Some (File (Unreadable e)) => Some e
  | Some (Dir _) | Some (LockedDir _) => Some (IsADirectoryError f)
  | None => Some (FileNotFoundError f)
  end.


(** The summary file of subdirectory [app_dir]:
    [base_dir/app_dir/app_dir_topdown_summary.txt]. *)
Definition summary_path (base_dir app_dir : string) : string :=
  path_join (path_join base_dir app_dir) (app_dir +:+ "_topdown_summary.txt").

(** Entry [app_dir] of [base_dir] is a directory, its summary file
    exists, and [extract_backend_bound] returns [v] for it. *)
Definition contributes (fs : filesystem) (base_dir app_dir : string)
           (v : float) : Prop :=
  isdir fs (path_join base_dir app_dir) = true
  /\ path_exists fs (summary_path base_dir app_dir) = true
  /\ result (extract_backend_bound fs (summary_path base_dir app_dir))
     = Return (Some v).

(** The value entry [app_dir] of [base_dir] contributes, if any. *)
Definition yield (fs : filesystem) (base_dir app_dir : string)
  : option float :=
  if isdir fs (path_join base_dir app_dir)
     && path_exists fs (summary_path base_dir app_dir)
  then
    match result (extract_backend_bound fs (summary_path base_dir app_dir)) with
    | Return (Some v) => Some v
    | _ => None
    end
  else None.

(** What one round of the loop over the listing records. *)
Definition visit_events (fs : filesystem) (base_dir app_dir : string)
  : list event :=
  if isdir fs (path_join base_dir app_dir)
     && path_exists fs (summary_path base_dir app_dir)
  then
    trace (extract_backend_bound fs (summary_path base_dir app_dir))
    ++ match yield fs base_dir app_dir with
       | Some v => [Print (MsgFound app_dir v)]
       | None => []
       end
  else [].

(** What one round of the loop over the listing does to [apps_data]. *)
Definition visit (fs : filesystem) (base_dir : string)
           (apps_data : gmap string float) (app_dir : string)
  : gmap string float :=
  match yield fs base_dir app_dir with
  | Some v => <[app_dir := v]> apps_data
  | None => apps_data
  end.

(** The first element of [l] that no later element is greater than;
    a NaN for the empty list, on which [max] raises. *)
Definition max_float (l : list float) : float :=
  match l with
  | [] => S754_nan
  | v :: l' => fold_left (fun m x => if fgt x m then x else m) l' v
  end.

(** The positions of [n] bars. *)
Definition x_positions (n : nat) : list float :=
  (fun i => fmul (of_nat i) bar_spacing) <$> seq 0 n.

(** The position of the separator in a chart of [n] bars. *)
Definition separator_position (n : nat) : float :=
  fmul (fsub (of_nat n) (of_decimal 15 1)) bar_spacing.

(** The values [d] holds for the keys [apps], in the order of [apps]. *)
Definition values_of (d : gmap string float) (apps : list string)
  : list float :=
  omap (fun k => d !! k) apps.

(** The rows of the printed summary. *)
Definition row_events (apps : list string) (values : list float)
  : list event :=
  zip_with (fun app v => Print (MsgRow (get_full_app_name app) v)) apps values.

Definition spine_events (spines : list string) : list event :=
  spines ≫= fun spine =>
    [Plot (SpineSetVisible spine); Plot (SpineSetColor spine);
     Plot (SpineSetLinewidth spine)].

(** The top of the y axis: [max(values) + 5]. *)
Definition chart_top (values : list float) : float :=
  fadd (max_float values) (of_nat 5).

(** The plot calls of a chart with the given bars and labels, in three
    parts: up to [plt.ylim], from there up to [plt.tight_layout], and
    the rest. *)
Definition limit_calls (apps : list string) (values : list float)
           (apps_labels : list string) : list plot_call :=
  [Figure 16 8; RcParamsUpdate; Gca; Grid;
   Bar (x_positions (length apps)) values width]
  ++ (if decide (1 < length apps)
      then [Axvline (separator_position (length apps))] else [])
  ++ [SetXticks (x_positions (length apps));
      SetXticklabels apps_labels;
      SubplotsAdjust; Yticks;
      Ylabel ("Back-End Bound" +:+ String "010" "(% of Pipeline Slots)");
      Ylim 0 (chart_top values)].

Definition layout_calls : list plot_call :=
  [SetMajorFormatter]
  ++ (axes_spines ≫= fun spine =>
        [SpineSetVisible spine; SpineSetColor spine; SpineSetLinewidth spine])
  ++ [TightLayout].

Definition save_calls : list plot_call :=
  [Savefig "backend_bound_plot.png";
   Savefig "backend_bound_plot.pdf";
   Savefig "backend_bound_plot.eps";
   Show].

(** The plot calls of a chart that is drawn to its end. *)
Definition chart_calls (apps : list string) (values : list float)
           (apps_labels : list string) : list plot_call :=
  limit_calls apps values apps_labels ++ layout_calls ++ save_calls.

(** The plot calls that are made: [plt.ylim] is the last one when the
    top of the axis is not finite, [plt.tight_layout] when a label
    cannot be laid out. *)
Definition made_calls (drawable : string -> bool) (apps : list string)
           (values : list float) (apps_labels : list string)
  : list plot_call :=
  limit_calls apps values apps_labels
  ++ (if is_finite (chart_top values) then
        layout_calls
        ++ (if forallb drawable apps_labels then save_calls else [])
      else []).

(** What [render] records, in the same three parts. *)
Definition limit_events (apps : list string) (values : list float)
           (apps_labels : list string) : list event :=
  Plot <$> limit_calls apps values apps_labels.

Definition layout_events : list event := Plot <$> layout_calls.

Definition save_events : list event :=
  [Plot (Savefig "backend_bound_plot.png");
   Plot (Savefig "backend_bound_plot.pdf");
   Plot (Savefig "backend_bound_plot.eps");
   Print MsgSavedAs;
   Print (MsgSavedFile "backend_bound_plot.png");
   Print (MsgSavedFile "backend_bound_plot.pdf");
   Print (MsgSavedFile "backend_bound_plot.eps");
   Plot Show].

(** What [render] records when it comes to its end. *)
Definition render_events (apps : list string) (values : list float)
           (apps_labels : list string) : list event :=
  limit_events apps values apps_labels ++ layout_events ++ save_events.

(** What [render] records, and how it ends, when [values] is not empty. *)
Definition render_trace (drawable : string -> bool) (apps : list string)
           (values : list float) (apps_labels : list string) : list event :=
  limit_events apps values apps_labels
  ++ (if is_finite (chart_top values) then
        layout_events
        ++ (if forallb drawable apps_labels then save_events else [])
      else []).

Definition render_result (drawable : string -> bool) (values : list float)
           (apps_labels : list string) : outcome unit :=
  if is_finite (chart_top values) then
    if forallb drawable apps_labels then Return tt
    else Raise (ValueError "ParseException")
  else Raise (ValueError "Axis limits cannot be NaN or Inf").

(** What [summarize] prints before the chart. *)
Definition summary_head (apps : list string) (vs : list float)
           (average_value : float) : list event :=
  [Print MsgSummaryTitle; Print MsgSummaryHeader; Print MsgRule]
  ++ row_events apps vs
  ++ [Print MsgRule; Print (MsgAverage average_value)].

(** What [summarize] records for a dictionary that is not empty, in
    terms of the sorted keys, their values and the average: when the
    chart is drawn to its end, and in general. *)
Definition summary_events (apps : list string) (vs : list float)
           (average_value : float) : list event :=
  summary_head apps vs average_value
  ++ render_events (apps ++ ["Average"]) (vs ++ [average_value])
       ((get_full_app_name <$> apps) ++ [average_label]).

Definition summary_trace (drawable : string -> bool) (apps : list string)
           (vs : list float) (average_value : float) : list event :=
  summary_head apps vs average_value
  ++ render_trace drawable (apps ++ ["Average"]) (vs ++ [average_value])
       ((get_full_app_name <$> apps) ++ [average_label]).

(** The dictionary the loop builds from the listing [names]. *)
Definition aggregated (fs : filesystem) (base_dir : string)
           (names : list string) : gmap string float :=
  foldl (visit fs base_dir) ∅ (sorted names).

(** What the loop records on the listing [names]. *)
Definition scan_events (fs : filesystem) (base_dir : string)
           (names : list string) : list event :=
  sorted names ≫= visit_events fs base_dir.

(** The sorted entities, their values and their average. *)
Definition entities (fs : filesystem) (base_dir : string)
           (names : list string) : list string :=
  sorted (keys (aggregated fs base_dir names)).

Definition entity_values (fs : filesystem) (base_dir : string)
           (names : list string) : list float :=
  values_of (aggregated fs base_dir names) (entities fs base_dir names).

Definition average_of (py_sum : list float -> float) (vs : list float)
  : float :=
  fdiv (py_sum vs) (of_nat (length vs)).

(** The listing of [base_dir], empty when it is not a directory. *)
Definition listing (fs : filesystem) (base_dir : string) : list string :=
  match fs base_dir with
  | Some (Dir names) => names
  | _ => []
  end.

(** Entry [app_dir] of [base_dir] is a directory with a summary file. *)
Definition has_summary (fs : filesystem) (base_dir app_dir : string) : bool :=
  isdir fs (path_join base_dir app_dir)
  && path_exists fs (summary_path base_dir app_dir).

(** Two entries a run cannot tell apart but for the order of a listing:
    the same file, or directories with the same entries. *)
Definition same_entry (a b : option entry) : Prop :=
  match a, b with
  | Some (Dir l1), Some (Dir l2) => l1 ≡ₚ l2
  | _, _ => a = b
  end.

(** The same file system contents, listed in possibly different orders. *)
Definition same_contents (fs1 fs2 : filesystem) : Prop :=
  forall path, same_entry (fs1 path) (fs2 path).

(** The number of dots of [s]. *)
Fixpoint count_dots (s : string) : nat :=
  match s with
  | EmptyString => 0
  | String c s' => (if Ascii.eqb c "." then 1 else 0) + count_dots s'
  end.

(** [s] has a digit. *)
Fixpoint has_digit (s : string) : bool :=
  match s with
  | EmptyString => false
  | String c s' => is_digit c || has_digit s'
  end.

(** The strings of digits and dots that [float] accepts: at most one
    dot and at least one digit. *)
Definition valid_literal (s : string) : bool :=
  all_chars is_digit_or_dot s && Nat.leb (count_dots s) 1 && has_digit s.

(** [n] zeros. *)
Fixpoint zeros (n : nat) : string :=
  match n with
  | O => ""
  | S n' => String "0" (zeros n')
  end.

(** A file system with nothing but one readable file. *)
Definition single_file (path content : string) : filesystem :=
  fun p => if String.eqb p path then Some (File (Readable content)) else None.

(** ** A small results directory *)

(** The file system whose paths are the keys of [l]. *)
Fixpoint fs_of_list (l : list (string * entry)) : filesystem :=
  fun p =>
    match l with
    | [] => None
    | (q, e) :: l' => if String.eqb p q then Some e else fs_of_list l' p
    end.

(** Everything of the demonstration directory but its own listing. *)
Definition demo_tree : list (string * entry) :=
  [ ("results/tc_gnutella31", Dir ["tc_gnutella31_topdown_summary.txt"]);
    ("results/tc_gnutella31/tc_gnutella31_topdown_summary.txt",
     File (Readable "Back-End Bound: 31.4% of Pipeline Slots"));
    ("results/bfs_gnutella31", Dir ["bfs_gnutella31_topdown_summary.txt"]);
    ("results/bfs_gnutella31/bfs_gnutella31_topdown_summary.txt",
     File (Readable "Memory Bound: 20.0%  Back-End Bound:   50.% of Slots"));
    ("results/notes.txt", File (Readable "Back-End Bound: 99%"));
    ("results/scratch", Dir []);
    ("results/locked", Dir ["locked_topdown_summary.txt"]);
    ("results/locked/locked_topdown_summary.txt",
     File (Unreadable (ReadFailure "Permission denied"))) ].

Definition demo_fs : filesystem :=
  fs_of_list
    (("results",
      Dir ["tc_gnutella31"; "notes.txt"; "locked"; "bfs_gnutella31"; "scratch"])
     :: demo_tree).

(** The same directory, listed in another order. *)
Definition demo_fs_relisted : filesystem :=
  fs_of_list
    (("results",
      Dir ["scratch"; "bfs_gnutella31"; "tc_gnutella31"; "locked"; "notes.txt"])
     :: demo_tree).

(** A directory in which nothing yields a value. *)
Definition demo_fs_no_data : filesystem :=
  fs_of_list
    [ ("results", Dir ["notes.txt"; "scratch"]);
      ("results/notes.txt", File (Readable "Back-End Bound: 99%"));
      ("results/scratch", Dir []) ].

Definition demo_process : process :=
  {| argv0 := "plot_topdown.py"; args := ["results"]; home := None |}.

(** A matplotlib that can lay out every label. *)
Definition draws_all (label : string) : bool := true.

(** A results directory whose only summary holds a one followed by 309
    zeros. *)
Definition demo_fs_huge : filesystem :=
  fs_of_list
    [ ("results", Dir ["big"]);
      ("results/big", Dir ["big_topdown_summary.txt"]);
      ("results/big/big_topdown_summary.txt",
       File (Readable ("Back-End Bound: 1" +:+ zeros 309 +:+ "%"))) ].

(** A regular file where the results directory is expected. *)
Definition demo_fs_file : filesystem :=
  single_file "results" "Back-End Bound: 31.4%".

(** ** Notions used by the further properties *)

(** [s] has no slash. *)
Definition no_slash (s : string) : bool :=
  all_chars (fun c => negb (Ascii.eqb c "/")) s.

(** The lines [Found D: v%] of a trace, in order. *)
Definition found_lines (t : list event) : list (string * float) :=
  omap (fun e => match e with
                 | Print (MsgFound D v) => Some (D, v)
                 | _ => None
                 end) t.

(** The rows of the printed summary of a trace, in order. *)
Definition summary_rows (t : list event) : list (string * float) :=
  omap (fun e => match e with
                 | Print (MsgRow name v) => Some (name, v)
                 | _ => None
                 end) t.

(** The entries of [dirs] that yield a value, each with its value. *)
Definition yielding (fs : filesystem) (base_dir : string)
           (dirs : list string) : list (string * float) :=
  omap (fun D => (fun v => (D, v)) <$> yield fs base_dir D) dirs.

(** Two file systems that agree on everything the script looks at: what
    the base directory is, which of its entries are directories, and
    what the summary file of each such directory is. *)
Definition agree_on_summaries (fs1 fs2 : filesystem) (base_dir : string)
  : Prop :=
  fs1 base_dir = fs2 base_dir
  /\ forall D,
       D ∈ listing fs1 base_dir ->
       isdir fs1 (path_join base_dir D) = isdir fs2 (path_join base_dir D)
       /\ (isdir fs1 (path_join base_dir D) = true ->
           fs1 (summary_path base_dir D) = fs2 (summary_path base_dir D)).

(** The demonstration directory with more files in it, and other notes. *)
Definition demo_fs_more : filesystem :=
  fs_of_list
    (("results/tc_gnutella31/raw.csv", File (Readable "1,2,3"))
     :: ("results/notes.txt", File (Readable "nothing to see"))
     :: ("results/scratch/tmp", Dir [])
     :: ("results",
         Dir ["tc_gnutella31"; "notes.txt"; "locked"; "bfs_gnutella31";
              "scratch"])
     :: demo_tree).
(** * Properties *)

(** ** The pattern at work *)

Example search_doc_comment :
  Re.search backend_pattern "Back-End Bound: 31.4% of Pipeline Slots"
  = Some (Re.MatchObj (Some "31.4")).
Proof. reflexivity. Qed.

Example search_first_of_two :
  Re.search backend_pattern
    "x Back-End Bound:  7.% y Back-End Bound: 9%"
  = Some (Re.MatchObj (Some "7.")).
Proof. reflexivity. Qed.

Example search_needs_space :
  Re.search backend_pattern "Back-End Bound:31.4%" = None.
Proof. reflexivity. Qed.

(** ** Strings *)
Section Strings.

Lemma app_cons (c : ascii) (s t : string) :
  String c s +:+ t = String c (s +:+ t).
Proof. reflexivity. Qed.

Lemma app_empty_l (t : string) : "" +:+ t = t.
Proof. reflexivity. Qed.

Lemma app_empty_r (s : string) : s +:+ "" = s.
Proof. induction s as [|c s IH]; [done|]. by rewrite app_cons, IH. Qed.

Lemma app_assoc_str (s t u : string) : (s +:+ t) +:+ u = s +:+ (t +:+ u).
Proof.
  induction s as [|c s IH]; [done|]. by rewrite !app_cons, IH.
Qed.

Lemma length_app_str (s t : string) :
  String.length (s +:+ t) = String.length s + String.length t.
Proof.
  induction s as [|c s IH]; [done|]. rewrite app_cons. simpl. by rewrite IH.
Qed.

Lemma substring_prefix (s t : string) :
  String.substring 0 (String.length s) (s +:+ t) = s.
Proof.
  induction s as [|c s IH]; [by destruct t|].
  rewrite app_cons. simpl. by rewrite IH.
Qed.

Lemma span_app cls (s : string) :
  (span cls s).1 +:+ (span cls s).2 = s.
Proof.
  induction s as [|c s IH]; [done|]. simpl.
  destruct (cls c); [|done].
  destruct (span cls s) as [run rest]. simpl in *. by rewrite app_cons, IH.
Qed.

Lemma span_all cls (s : string) : all_chars cls (span cls s).1 = true.
Proof.
  induction s as [|c s IH]; [done|]. simpl.
  destruct (cls c) eqn:Hc; [|done].
  destruct (span cls s) as [run rest]. simpl in *. by rewrite Hc.
Qed.

Lemma span_rest cls (s : string) : starts_in cls (span cls s).2 = false.
Proof.
  induction s as [|c s IH]; [done|]. simpl.
  destruct (cls c) eqn:Hc; [|done].
  by destruct (span cls s) as [run rest].
Qed.

Lemma span_unique cls (run rest : string) :
  all_chars cls run = true -> starts_in cls rest = false ->
  span cls (run +:+ rest) = (run, rest).
Proof.
  intros Hrun Hrest. induction run as [|c run IH].
  - rewrite app_empty_l. destruct rest as [|c rest]; [done|].
    simpl in *. by rewrite Hrest.
  - rewrite app_cons. simpl in *.
    apply andb_prop in Hrun as [-> Hrun]. by rewrite (IH Hrun).
Qed.

End Strings.

(** ** The matcher on [backend_pattern] *)
Section Matcher.

Lemma strip_app (l s : string) : Re.strip l (l +:+ s) = Some s.
Proof.
  induction l as [|c l IH]; [by destruct s|].
  rewrite app_cons. simpl. by rewrite Ascii.eqb_refl.
Qed.

Lemma strip_Some (l s s' : string) :
  Re.strip l s = Some s' -> s = l +:+ s'.
Proof.
  revert s. induction l as [|c l IH]; intros s H.
  - destruct s; simpl in H; by inversion H.
  - destruct s as [|b s]; [done|]. simpl in H.
    destruct (Ascii.eqb_spec c b) as [->|]; [|done].
    rewrite app_cons. f_equal. by apply IH.
Qed.

Lemma span_empty_run cls (s : string) :
  (span cls s).1 = "" -> (span cls s).2 = s.
Proof. intros H. generalize (span_app cls s). by rewrite H. Qed.

Lemma span_starts cls (s : string) :
  (span cls s).1 <> "" -> starts_in cls s = true.
Proof.
  destruct s as [|c s]; [done|]. simpl. by destruct (cls c).
Qed.

(** When the continuation refuses every input that still starts in
    the class, greedy repetition takes the longest run and never has
    to give a character back. *)
Lemma rep1_span {A} cls (k : string -> option A) (s : string) :
  (forall s', starts_in cls s' = true -> k s' = None) ->
  Re.rep1 cls s k =
    if String.eqb (span cls s).1 "" then None else k (span cls s).2.
Proof.
  intros Hk. induction s as [|c s IH]; [done|]. simpl.
  destruct (cls c) eqn:Hc; [|done]. rewrite IH.
  pose proof (span_empty_run cls s) as Hempty.
  pose proof (span_starts cls s) as Hstart.
  destruct (span cls s) as [run rest]. simpl in *.
  destruct (String.eqb_spec run "") as [->|Hne].
  - by rewrite Hempty.
  - destruct (k rest) eqn:Hrest; [done|]. by rewrite Hk; [|apply Hstart].
Qed.

Lemma consumed_app (s t : string) : Re.consumed (s +:+ t) t = s.
Proof.
  unfold Re.consumed. rewrite length_app_str.
  replace (String.length s + String.length t - String.length t)
    with (String.length s) by lia.
  apply substring_prefix.
Qed.

Lemma space_not_capture c : is_space c = true -> is_digit_or_dot c = false.
Proof. by destruct c as [[] [] [] [] [] [] [] []]. Qed.

(** The backtracking matcher agrees with the scanner. *)
Lemma match_here_scan (s : string) :
  Re.match_here backend_pattern s
  = (fun cap => Re.MatchObj (Some cap)) <$> scan_here s.
Proof.
  unfold Re.match_here, scan_here, backend_pattern. cbn [Re.rmatch].
  destruct (Re.strip "Back-End Bound:" s) as [s1|]; [|done].
  rewrite rep1_span.
  2:{ intros [|c s'] Hc; [done|]. cbn [Re.rep1 starts_in] in *.
      by rewrite (space_not_capture c Hc). }
  destruct (span is_space s1) as [ws s2]. cbn [fst snd].
  destruct (String.eqb ws ""); [done|].
  rewrite rep1_span.
  2:{ intros [|c s'] Hc; [done|]. cbn [Re.strip starts_in] in *.
      destruct (Ascii.eqb_spec "%" c) as [<-|]; done. }
  pose proof (span_app is_digit_or_dot s2) as Happ.
  destruct (span is_digit_or_dot s2) as [cap s3]. cbn [fst snd] in *.
  destruct (String.eqb cap ""); [done|].
  destruct (Re.strip "%" s3); [|done]. cbn.
  by rewrite <- Happ, consumed_app.
Qed.

End Matcher.

(** ** Occurrences of the pattern and [re.search] *)
Section Search.

Lemma capture_not_space (cap : string) :
  cap <> "" -> all_chars is_digit_or_dot cap = true ->
  forall rest, starts_in is_space (cap +:+ rest) = false.
Proof.
  intros Hne Hall rest. destruct cap as [|c cap]; [done|].
  rewrite app_cons. simpl in *. apply andb_prop in Hall as [Hc _].
  destruct (is_space c) eqn:Hs; [|done].
  by rewrite (space_not_capture c Hs) in Hc.
Qed.

Lemma eqb_empty_false (s : string) : s <> "" -> String.eqb s "" = false.
Proof. intros H. by apply String.eqb_neq. Qed.

(** The scanner finds exactly the occurrences that start at once. *)
Lemma scan_here_occurs (s cap : string) :
  scan_here s = Some cap <-> occurs_at s "" cap.
Proof.
  unfold scan_here, occurs_at. split.
  - intros H.
    destruct (Re.strip "Back-End Bound:" s) as [s1|] eqn:H1; [|done].
    apply strip_Some in H1.
    pose proof (span_app is_space s1) as Hws.
    pose proof (span_all is_space s1) as Hall.
    destruct (span is_space s1) as [ws s2]. cbn [fst snd] in *.
    destruct (String.eqb_spec ws "") as [|Hne]; [done|].
    pose proof (span_app is_digit_or_dot s2) as Hcap.
    pose proof (span_all is_digit_or_dot s2) as Hall'.
    destruct (span is_digit_or_dot s2) as [cap' s3]. cbn [fst snd] in *.
    destruct (String.eqb_spec cap' "") as [|Hne']; [done|].
    destruct (Re.strip "%" s3) as [post|] eqn:H3; [|done].
    apply strip_Some in H3. injection H as <-.
    exists ws, post. rewrite app_empty_l. subst s s1 s2 s3. done.
  - intros (ws & post & -> & Hne & Hall & Hne' & Hall').
    rewrite app_empty_l, strip_app.
    rewrite span_unique by (by auto using capture_not_space).
    rewrite eqb_empty_false by done.
    rewrite span_unique by done.
    rewrite eqb_empty_false by done.
    by rewrite strip_app.
Qed.

Lemma occurs_at_cons (c : ascii) (text pre cap : string) :
  occurs_at (String c text) (String c pre) cap <-> occurs_at text pre cap.
Proof.
  unfold occurs_at. split; intros (ws & post & H & Hrest);
    exists ws, post; (split; [|done]).
  - rewrite app_cons in H. by injection H.
  - rewrite app_cons. by f_equal.
Qed.

Lemma occurs_at_head (c c' : ascii) (text pre cap : string) :
  occurs_at (String c text) (String c' pre) cap -> c' = c.
Proof.
  intros (ws & post & H & _). rewrite app_cons in H. by injection H.
Qed.

Lemma occurs_at_empty (pre cap : string) : ~ occurs_at "" pre cap.
Proof.
  intros (ws & post & H & _). destruct pre; by rewrite app_cons in H.
Qed.

(** [re.search] returns the capture of the leftmost occurrence. *)
Lemma search_Some (text : string) (m : Re.match_obj) :
  Re.search backend_pattern text = Some m ->
  exists pre cap,
    m = Re.MatchObj (Some cap) /\ first_occurrence text pre cap.
Proof.
  induction text as [|c text IH]; cbn [Re.search];
    rewrite match_here_scan.
  - destruct (scan_here "") as [cap|] eqn:Hs; [|done].
    apply scan_here_occurs in Hs. by apply occurs_at_empty in Hs.
  - destruct (scan_here (String c text)) as [cap|] eqn:Hs; cbn.
    + intros [= <-]. exists "", cap. split; [done|].
      split; [by apply scan_here_occurs|]. intros; simpl; lia.
    + intros (pre & cap & -> & Hocc & Hleft)%IH.
      exists (String c pre), cap. split; [done|]. split.
      * by apply occurs_at_cons.
      * intros [|c' pre'] cap' Hocc'.
        { apply scan_here_occurs in Hocc'. congruence. }
        pose proof (occurs_at_head _ _ _ _ _ Hocc') as ->.
        apply occurs_at_cons, Hleft in Hocc'. simpl. lia.
Qed.

(** [re.search] returns [None] only when the pattern does not occur. *)
Lemma search_None (text : string) :
  Re.search backend_pattern text = None -> ~ occurs text.
Proof.
  induction text as [|c text IH]; cbn [Re.search];
    rewrite match_here_scan.
  - intros _ (pre & cap & H). by apply occurs_at_empty in H.
  - destruct (scan_here (String c text)) as [cap|] eqn:Hs; [done|]. cbn.
    intros Hn%IH ([|c' pre] & cap & Hocc).
    + apply scan_here_occurs in Hocc. congruence.
    + pose proof (occurs_at_head _ _ _ _ _ Hocc) as ->.
      apply occurs_at_cons in Hocc. apply Hn. by exists pre, cap.
Qed.

(** Two occurrences that start at the same place capture the same. *)
Lemma occurs_at_functional (text pre pre' cap cap' : string) :
  occurs_at text pre cap -> occurs_at text pre' cap' ->
  String.length pre = String.length pre' -> cap = cap'.
Proof.
  revert pre pre'. induction text as [|c text IH]; intros pre pre' H H' Hlen.
  - by apply occurs_at_empty in H.
  - destruct pre as [|a pre], pre' as [|a' pre']; try done.
    + apply scan_here_occurs in H, H'. congruence.
    + pose proof (occurs_at_head _ _ _ _ _ H) as ->.
      pose proof (occurs_at_head _ _ _ _ _ H') as ->.
      apply occurs_at_cons in H, H'. eapply IH; eauto.
Qed.

Lemma search_first_occurrence (text pre cap : string) :
  first_occurrence text pre cap ->
  Re.search backend_pattern text = Some (Re.MatchObj (Some cap)).
Proof.
  intros [Hocc Hleft].
  destruct (Re.search backend_pattern text) as [m|] eqn:Hs.
  - apply search_Some in Hs as (pre' & cap' & -> & Hocc' & Hleft').
    do 3 f_equal. eapply occurs_at_functional; eauto.
    apply Hleft in Hocc'. apply Hleft' in Hocc. lia.
  - apply search_None in Hs. destruct Hs. by exists pre, cap.
Qed.

End Search.

(** ** [extract_backend_bound] *)
Section Extract.

Variable fs : filesystem.

(** What [extract_backend_bound] does on a file that can be read. *)
Lemma extract_readable (f text : string) :
  fs f = Some (File (Readable text)) ->
  extract_backend_bound fs f =
    match Re.search backend_pattern text with
    | None => ([Open f], Return None)
    | Some m =>
        match Re.group1 m with
        | None => ([Open f; Print (MsgErrorReading f TypeError)], Return None)
        | Some cap =>
            match parse_float cap with
            | Some v => ([Open f], Return (Some v))
            | None =>
                ([Open f; Print (MsgErrorReading f (ValueError cap))],
                 Return None)
            end
        end
    end.
Proof.
  intros H. unfold extract_backend_bound, open_read. rewrite H. cbn.
  destruct (Re.search backend_pattern text) as [[[cap|]]|]; cbn; try done.
  unfold py_float. by destruct (parse_float cap).
Qed.

Lemma open_read_error (f : string) (e : exn) :
  read_error fs f = Some e <-> open_read fs f = ([Open f], Raise e).
Proof.
  unfold read_error, open_read.
  destruct (fs f) as [[[text|e']|names|e']|]; cbn; split; intros H;
    by simplify_eq.
Qed.

Lemma extract_unreadable (f : string) (e : exn) :
  read_error fs f = Some e ->
  extract_backend_bound fs f
  = ([Open f; Print (MsgErrorReading f e)], Return None).
Proof.
  intros H%open_read_error. unfold extract_backend_bound.
  by rewrite H.
Qed.

Lemma read_error_None (f : string) :
  read_error fs f = None -> exists text, fs f = Some (File (Readable text)).
Proof.
  unfold read_error. destruct (fs f) as [[[text|e']|names|e']|]; try done.
  by exists text.
Qed.

(** [extract_backend_bound] always returns, and opens its file once. *)
Lemma extract_returns (f : string) :
  exists r, result (extract_backend_bound fs f) = Return r.
Proof.
  destruct (read_error fs f) as [e|] eqn:He.
  - rewrite (extract_unreadable f e He). by eexists.
  - apply read_error_None in He as [text Htext].
    rewrite (extract_readable f text Htext).
    destruct (Re.search backend_pattern text) as [[[cap|]]|]; cbn;
      [destruct (parse_float cap)|..]; by eexists.
Qed.

Lemma extract_opens (f : string) :
  opens (trace (extract_backend_bound fs f)) = [f].
Proof.
  destruct (read_error fs f) as [e|] eqn:He.
  - by rewrite (extract_unreadable f e He).
  - apply read_error_None in He as [text Htext].
    rewrite (extract_readable f text Htext).
    destruct (Re.search backend_pattern text) as [[[cap|]]|]; cbn;
      [destruct (parse_float cap)|..]; done.
Qed.

(** A value comes only from a readable file whose leftmost occurrence
    captures a literal [float] accepts. *)
Lemma extract_Some (f : string) (v : float) :
  result (extract_backend_bound fs f) = Return (Some v) ->
  exists text pre cap,
    fs f = Some (File (Readable text))
    /\ first_occurrence text pre cap
    /\ parse_float cap = Some v.
Proof.
  destruct (read_error fs f) as [e|] eqn:He.
  - by rewrite (extract_unreadable f e He).
  - apply read_error_None in He as [text Htext].
    rewrite (extract_readable f text Htext).
    destruct (Re.search backend_pattern text) as [m|] eqn:Hs; [|done].
    apply search_Some in Hs as (pre & cap & -> & Hfirst). cbn.
    destruct (parse_float cap) as [v'|] eqn:Hp; [|done].
    intros [= <-]. by exists text, pre, cap.
Qed.

End Extract.

(** ** Signs in binary64 *)
Section Sign.

Local Open Scope Z_scope.

Lemma iter_pos_invariant {A} (P : A -> Prop) (f : A -> A) :
  (forall x, P x -> P (f x)) ->
  forall n x, P x -> P (SpecFloat.iter_pos f n x).
Proof.
  intros Hf. induction n as [n IH|n IH|]; intros x Hx; simpl; auto.
Qed.

Lemma shr_1_nonneg (mrs : shr_record) :
  0 <= shr_m mrs -> 0 <= shr_m (shr_1 mrs).
Proof.
  destruct mrs as [m r s]. simpl.
  destruct m as [|[p|p|]|[p|p|]]; simpl; lia.
Qed.

Lemma shr_nonneg (mrs : shr_record) (e n : Z) :
  0 <= shr_m mrs -> 0 <= shr_m (shr mrs e n).1.
Proof.
  intros H. destruct n as [|p|p]; simpl; try done.
  apply (iter_pos_invariant (fun x => 0 <= shr_m x)); [|done].
  apply shr_1_nonneg.
Qed.

Lemma shr_fexp_nonneg (m e : Z) (l : location) :
  0 <= m -> 0 <= shr_m (shr_fexp prec emax m e l).1.
Proof.
  intros H. unfold shr_fexp. apply shr_nonneg. by destruct l as [|[]].
Qed.

Lemma round_nearest_even_nonneg (m : Z) (l : location) :
  0 <= m -> 0 <= round_nearest_even m l.
Proof.
  intros H. unfold round_nearest_even.
  destruct l as [|[]]; try done; [destruct (Z.even m)|]; lia.
Qed.

(** Rounding a non-negative mantissa under a clear sign bit gives
    [+0.0], a positive finite number or [+inf]. *)
Lemma binary_round_aux_nonneg (m e : Z) (l : location) :
  0 <= m -> is_nonneg (binary_round_aux prec emax false m e l) = true.
Proof.
  intros H. unfold binary_round_aux.
  pose proof (shr_fexp_nonneg m e l H) as H1.
  destruct (shr_fexp prec emax m e l) as [mrs' e']. cbn [fst] in H1.
  pose proof (shr_fexp_nonneg _ e' loc_Exact
                (round_nearest_even_nonneg _ (loc_of_shr_record mrs') H1))
    as H2.
  destruct (shr_fexp prec emax _ e' loc_Exact) as [mrs'' e''].
  cbn [fst] in H2.
  destruct (shr_m mrs'') as [|p|p]; [done| |lia].
  by destruct (e'' <=? emax - prec).
Qed.

Lemma div_core_nonneg (m1 m2 : positive) (e1 e2 : Z) :
  0 <= (SFdiv_core_binary prec emax (Zpos m1) e1 (Zpos m2) e2).1.1.
Proof.
  unfold SFdiv_core_binary.
  set (s := _ - _ - _).
  set (m' := match s with Z0 => _ | Zpos _ => _ | Zneg _ => _ end).
  assert (0 <= m') as Hm'.
  { subst m'. destruct s; [lia| |lia]. by apply Z.shiftl_nonneg. }
  pose proof (Z.div_eucl_eq m' (Zpos m2) ltac:(done)) as Heq.
  pose proof (Z.mod_pos_bound m' (Zpos m2) ltac:(done)) as Hmod.
  unfold Z.modulo in Hmod.
  destruct (Z.div_eucl m' (Z.pos m2)) as [q r]. cbn [fst]. nia.
Qed.

Lemma fdiv_nonneg (m1 m2 : positive) (e1 e2 : Z) :
  is_nonneg (fdiv (S754_finite false m1 e1) (S754_finite false m2 e2))
  = true.
Proof.
  unfold fdiv, SFdiv.
  pose proof (div_core_nonneg m1 m2 e1 e2) as H.
  destruct (SFdiv_core_binary _ _ _ _ _ _) as [[mz ez] lz].
  cbn [fst] in H. cbn [xorb]. by apply binary_round_aux_nonneg.
Qed.

Lemma of_decimal_nonneg (m : N) (k : nat) :
  is_nonneg (of_decimal m k) = true.
Proof. destruct m; [done|]. apply fdiv_nonneg. Qed.

Lemma parse_float_nonneg (s : string) (v : float) :
  parse_float s = Some v -> is_nonneg v = true.
Proof.
  unfold parse_float.
  destruct (read_digits s 0%N) as [[i ni] r].
  destruct r as [|c r'].
  - destruct (Nat.eqb ni 0); [done|].
    intros [= <-]. apply of_decimal_nonneg.
  - destruct (Ascii.eqb c "."); [|done].
    destruct (read_digits r' i) as [[m nf] r''].
    destruct r''; [|done]. destruct (Nat.eqb (ni + nf) 0); [done|].
    intros [= <-]. apply of_decimal_nonneg.
Qed.

End Sign.

(** ** The loop over the listing *)
Section Scan.

Variable fs : filesystem.
Variable base_dir : string.

Lemma yield_contributes (app_dir : string) (v : float) :
  yield fs base_dir app_dir = Some v <-> contributes fs base_dir app_dir v.
Proof.
  unfold yield, contributes.
  destruct (isdir fs _), (path_exists fs _); cbn;
    try (split; [done | by intros (? & ? & ?)]).
  destruct (result _) as [[v'|]| |];
    (split; [intros [= ->] | intros (_ & _ & [= ->])]); done.
Qed.

Lemma scan_spec (dirs : list string) (d : gmap string float) :
  scan fs base_dir dirs d
  = (dirs ≫= visit_events fs base_dir,
     Return (foldl (visit fs base_dir) d dirs)).
Proof.
  revert d. induction dirs as [|app_dir dirs IH]; intros d; [done|].
  cbn [scan foldl mbind list_bind]. unfold summary_name.
  fold (summary_path base_dir app_dir).
  unfold visit_events at 1, visit at 2, yield.
  destruct (isdir fs (path_join base_dir app_dir)); cbn [negb andb];
    [|by rewrite IH].
  destruct (path_exists fs (summary_path base_dir app_dir)); [|by rewrite IH].
  destruct (extract_returns fs (summary_path base_dir app_dir)) as [r Hr].
  destruct (extract_backend_bound fs (summary_path base_dir app_dir))
    as [t o]. cbn in Hr. subst o. cbn.
  destruct r as [v|]; rewrite IH; cbn; [|by rewrite app_nil_r].
  by rewrite <- app_assoc.
Qed.

Lemma foldl_visit_lookup (dirs : list string) (d : gmap string float)
      (k : string) :
  foldl (visit fs base_dir) d dirs !! k
  = match yield fs base_dir k with
    | Some v => if decide (k ∈ dirs) then Some v else d !! k
    | None => d !! k
    end.
Proof.
  revert d. induction dirs as [|a dirs IH]; intros d.
  - cbn. destruct (yield fs base_dir k); [|done].
    by rewrite decide_False by apply not_elem_of_nil.
  - cbn [foldl]. rewrite IH. unfold visit.
    destruct (yield fs base_dir k) as [v|] eqn:Hk.
    + destruct (decide (k ∈ dirs)) as [Hin|Hin].
      * by rewrite decide_True by (by right).
      * destruct (decide (a = k)) as [->|Hne].
        -- rewrite Hk, lookup_insert_eq.
           by rewrite decide_True by left.
        -- rewrite decide_False by (by intros [?|?]%elem_of_cons).
           destruct (yield fs base_dir a); [|done].
           by rewrite lookup_insert_ne.
    + destruct (yield fs base_dir a) as [v|] eqn:Ha; [|done].
      rewrite lookup_insert_ne; [done|]. intros ->. congruence.
Qed.

Lemma sorted_elem_of (l : list string) (k : string) :
  k ∈ sorted l <-> k ∈ l.
Proof. unfold sorted. by rewrite merge_sort_Permutation. Qed.

(** The dictionary after the loop, by lookups. *)
Lemma aggregate_spec (names : list string) :
  fs base_dir = Some (Dir names) ->
  exists d,
    aggregate fs base_dir
    = (sorted names ≫= visit_events fs base_dir, Return d)
    /\ forall app_dir v,
         d !! app_dir = Some v
         <-> app_dir ∈ names /\ contributes fs base_dir app_dir v.
Proof.
  intros H. exists (foldl (visit fs base_dir) ∅ (sorted names)). split.
  - unfold aggregate, listdir. rewrite H. cbn. by rewrite scan_spec.
  - intros k v. rewrite foldl_visit_lookup, lookup_empty.
    rewrite <- yield_contributes.
    destruct (yield fs base_dir k) as [v'|]; [|by split; [|intros [_ ?]]].
    destruct (decide (k ∈ sorted names)) as [Hin|Hin];
      rewrite sorted_elem_of in Hin; [tauto|].
    split; [done|]. by intros [? _].
Qed.

End Scan.

(** ** Computations *)
Section Monad.

Lemma bind_Return {A B} (t : list event) (a : A) (f : A -> M B) :
  (t, Return a) ≫= f = (t ++ trace (f a), result (f a)).
Proof. cbn. by destruct (f a). Qed.

Lemma mret_bind {A B} (a : A) (f : A -> M B) : mret a ≫= f = f a.
Proof. unfold mret, M_ret. rewrite bind_Return. by destruct (f a). Qed.

(** Running a computation piece by piece.  The remaining computation
    appears once in each premise, so a long chain is run in linear
    time. *)
Lemma run_bind {A B} (m : M A) (f : A -> M B) t a t' o :
  m = (t, Return a) -> f a = (t', o) -> m ≫= f = (t ++ t', o).
Proof. intros -> H. by rewrite bind_Return, H. Qed.

Lemma run_emit {B} (e : event) (k : unit -> M B) t o :
  k tt = (t, o) -> emit e ≫= k = (e :: t, o).
Proof. intros H. unfold emit. by rewrite bind_Return, H. Qed.

Lemma run_if_emit {B} (c : bool) (e : event) (k : unit -> M B) t o :
  k tt = (t, o) ->
  (if c then emit e else mret tt) ≫= k = ((if c then [e] else []) ++ t, o).
Proof.
  intros H. destruct c; [by apply run_emit|]. by rewrite mret_bind.
Qed.

Lemma run_raise {A B} (e : exn) (f : A -> M B) :
  raise e ≫= f = ([], Raise e).
Proof. done. Qed.

Lemma run_exit {A B} (c : Z) (f : A -> M B) :
  sys_exit c ≫= f = ([], SysExit c).
Proof. done. Qed.

Lemma run_ylim {B} (top : float) (k : unit -> M B) t o :
  is_finite top = true -> k tt = (t, o) ->
  ylim 0 top ≫= k = (Plot (Ylim 0 top) :: t, o).
Proof.
  intros Hfin H. unfold ylim, plt, emit. rewrite Hfin.
  cbn. by rewrite H.
Qed.

Lemma run_ylim_refused {B} (top : float) (k : unit -> M B) :
  is_finite top = false ->
  ylim 0 top ≫= k
  = ([Plot (Ylim 0 top)],
     Raise (ValueError "Axis limits cannot be NaN or Inf")).
Proof. intros Hfin. unfold ylim, plt, emit. by rewrite Hfin. Qed.

End Monad.

Ltac run_step :=
  first [ eapply run_emit; cbv beta
        | eapply run_bind; [reflexivity | cbv beta] ].

(** ** The summary and the chart *)
Section Summary.

Variable py_sum : list float -> float.
Variable drawable : string -> bool.

Lemma style_spines_spec (spines : list string) :
  style_spines spines = (spine_events spines, Return tt).
Proof.
  induction spines as [|s spines IH]; [done|].
  cbn [style_spines]. unfold plt. repeat run_step. exact IH.
Qed.

Lemma py_max_spec (l : list float) :
  l <> [] -> py_max l = ([], Return (max_float l)).
Proof. by destruct l. Qed.

Lemma run_tight_layout {B} (labels : list string) (k : unit -> M B) t o :
  forallb drawable labels = true -> k tt = (t, o) ->
  tight_layout drawable labels ≫= k = (Plot TightLayout :: t, o).
Proof.
  intros Hok H. unfold tight_layout, plt, emit. rewrite Hok.
  cbn. by rewrite H.
Qed.

Lemma run_tight_layout_refused {B} (labels : list string) (k : unit -> M B) :
  forallb drawable labels = false ->
  tight_layout drawable labels ≫= k
  = ([Plot TightLayout], Raise (ValueError "ParseException")).
Proof. intros Hok. unfold tight_layout, plt, emit. by rewrite Hok. Qed.

(** [render] up to the call of [plt.ylim]. *)
Lemma render_to_ylim {B} (apps : list string) (values : list float)
      (labels : list string) (k : unit -> M B) t o :
  values <> [] ->
  ylim 0 (chart_top values) ≫= k = (t, o) ->
  (let x := (fun i => fmul (of_nat i) bar_spacing) <$> seq 0 (length apps) in
   plt (Figure 16 8);;
   plt RcParamsUpdate;;
   plt Gca;;
   plt Grid;;
   plt (Bar x values width);;
   (if decide (1 < length apps) then
      let separator_x :=
        fmul (fsub (of_nat (length apps)) (of_decimal 15 1)) bar_spacing in
      plt (Axvline separator_x)
    else mret tt);;
   plt (SetXticks x);;
   plt (SetXticklabels labels);;
   plt SubplotsAdjust;;
   plt Yticks;;
   plt (Ylabel ("Back-End Bound" +:+ String "010" "(% of Pipeline Slots)"));;
   m ← py_max values;
   let y_max := fadd m (of_nat 5) in
   ylim 0 y_max ≫= k)
  = (removelast (limit_events apps values labels) ++ t, o).
Proof.
  intros Hne Hk. cbv zeta. unfold plt.
  rewrite (py_max_spec values Hne).
  fold (x_positions (length apps)) (separator_position (length apps)).
  fold (chart_top values).
  unfold limit_events, limit_calls.
  destruct (decide (1 < length apps)).
  - etrans; [do 11 run_step; eapply run_bind; [reflexivity|exact Hk]|].
    reflexivity.
  - etrans; [do 5 run_step; eapply run_bind; [reflexivity|cbv beta];
             do 5 run_step; eapply run_bind; [reflexivity|exact Hk]|].
    reflexivity.
Qed.

Lemma limit_events_last (apps : list string) (values : list float)
      (labels : list string) :
  limit_events apps values labels
  = removelast (limit_events apps values labels)
    ++ [Plot (Ylim 0 (chart_top values))].
Proof.
  unfold limit_events, limit_calls. by destruct (decide (1 < length apps)).
Qed.

Lemma render_spec (apps : list string) (values : list float)
      (labels : list string) :
  values <> [] ->
  render drawable apps values labels
  = (render_trace drawable apps values labels,
     render_result drawable values labels).
Proof.
  intros Hne. unfold render, print, render_trace, render_result.
  rewrite style_spines_spec.
  rewrite (limit_events_last apps values labels), <- app_assoc.
  apply render_to_ylim; [done|].
  destruct (is_finite (chart_top values)) eqn:Hfin;
    [|by apply run_ylim_refused].
  apply run_ylim; [done|]. unfold plt.
  destruct (forallb drawable labels) eqn:Hok.
  - etrans; [do 2 run_step; eapply run_tight_layout; [done|];
             repeat run_step; reflexivity|].
    reflexivity.
  - etrans; [do 2 run_step; by apply run_tight_layout_refused|].
    reflexivity.
Qed.

Lemma keys_elem_of (d : gmap string float) (k : string) :
  k ∈ keys d <-> is_Some (d !! k).
Proof.
  unfold keys. rewrite list_elem_of_fmap. split.
  - intros ([k' v] & -> & Hin). apply elem_of_map_to_list in Hin.
    by exists v.
  - intros [v Hv]. exists (k, v). split; [done|].
    by apply elem_of_map_to_list.
Qed.

Lemma keys_nonempty (d : gmap string float) : d <> ∅ -> keys d <> [].
Proof.
  intros Hd Hk. apply Hd, map_to_list_empty_iff.
  unfold keys in Hk. by apply fmap_nil_inv in Hk.
Qed.

Lemma sorted_length (l : list string) : length (sorted l) = length l.
Proof. unfold sorted. by rewrite merge_sort_Permutation. Qed.

Lemma sorted_nonempty (l : list string) : l <> [] -> sorted l <> [].
Proof.
  intros Hl Hs. apply Hl, length_zero_iff_nil.
  by rewrite <- sorted_length, Hs.
Qed.

Lemma sorted_keys_elem_of (d : gmap string float) (k : string) :
  k ∈ sorted (keys d) <-> is_Some (d !! k).
Proof. by rewrite sorted_elem_of, keys_elem_of. Qed.

Lemma values_of_cons (d : gmap string float) (k : string) (v : float)
      (l : list string) :
  d !! k = Some v -> values_of d (k :: l) = v :: values_of d l.
Proof. intros H. unfold values_of. cbn [omap list_omap]. by rewrite H. Qed.

(** Looking up keys that are all present: one value per key. *)
Lemma values_of_present (d : gmap string float) (l : list string) :
  (forall k, k ∈ l -> is_Some (d !! k)) ->
  Forall2 (fun k v => d !! k = Some v) l (values_of d l).
Proof.
  induction l as [|k l IH]; intros H; [constructor|].
  destruct (H k) as [v Hv]; [by left|].
  rewrite (values_of_cons d k v l Hv). constructor; [done|].
  apply IH. intros k' Hk'. apply H. by right.
Qed.

Lemma getitem_Some (d : gmap string float) (k : string) (v : float) :
  d !! k = Some v -> getitem d k = mret v.
Proof. intros H. unfold getitem. by rewrite H. Qed.

Lemma mapM_getitem (d : gmap string float) (l : list string) :
  (forall k, k ∈ l -> is_Some (d !! k)) ->
  mapM (getitem d) l = ([], Return (values_of d l)).
Proof.
  induction l as [|k l IH]; intros H; [done|].
  destruct (H k) as [v Hv]; [by left|].
  cbn [mapM]. rewrite (getitem_Some d k v Hv), mret_bind.
  rewrite IH by (intros k' Hk'; apply H; by right).
  by rewrite bind_Return, (values_of_cons d k v l Hv).
Qed.

Lemma but_last_snoc {A} (l : list A) (x : A) : but_last (l ++ [x]) = l.
Proof.
  unfold but_last. rewrite length_app. cbn.
  replace (length l + 1 - 1) with (length l) by lia.
  by rewrite take_app_length.
Qed.

Lemma print_rows_spec (values : list float) (apps : list string) (i : nat) :
  i + length apps <= length values ->
  print_rows values i apps = (row_events apps (drop i values), Return tt).
Proof.
  revert i. induction apps as [|app apps IH]; intros i Hlen; [done|].
  cbn [length] in Hlen. cbn [print_rows].
  destruct (lookup_lt_is_Some_2 values i) as [v Hv]; [lia|].
  unfold getitem_list, print. rewrite Hv, mret_bind.
  rewrite (drop_S _ _ _ Hv). eapply run_emit. apply IH. lia.
Qed.

Lemma row_events_app (apps : list string) (vs extra : list float) :
  length apps <= length vs ->
  row_events apps (vs ++ extra) = row_events apps vs.
Proof.
  revert vs. induction apps as [|app apps IH]; intros [|v vs] Hlen;
    cbn in *; try done; [lia|].
  unfold row_events in IH. rewrite IH by lia. done.
Qed.

Lemma truediv_pos (x : float) (n : nat) :
  0 < n -> truediv x n = ([], Return (fdiv x (of_nat n))).
Proof. by destruct n; [lia|]. Qed.

(** [summarize] on a dictionary that is not empty. *)
Lemma summarize_spec (d : gmap string float) :
  d <> ∅ ->
  let apps := sorted (keys d) in
  let vs := values_of d apps in
  let average_value := fdiv (py_sum vs) (of_nat (length vs)) in
  summarize py_sum drawable d
  = (summary_trace drawable apps vs average_value,
     render_result drawable (vs ++ [average_value])
       ((get_full_app_name <$> apps) ++ [average_label])).
Proof.
  intros Hd. cbv zeta. unfold summarize.
  pose proof (values_of_present d (sorted (keys d))
                (fun k => proj1 (sorted_keys_elem_of d k))) as Hvs.
  apply Forall2_length in Hvs.
  assert (sorted (keys d) <> []) as Hne
    by by apply sorted_nonempty, keys_nonempty.
  assert (0 < length (sorted (keys d))) as Hpos
    by (destruct (sorted (keys d)); [done|cbn; lia]).
  etrans.
  { eapply run_bind;
      [apply mapM_getitem; intros k; apply sorted_keys_elem_of|cbv beta].
    eapply run_bind; [apply truediv_pos; lia|cbv beta].
    rewrite but_last_snoc. unfold print. do 3 run_step.
    eapply run_bind;
      [apply print_rows_spec; rewrite length_app; lia|cbv beta].
    do 2 run_step. apply render_spec.
    intros [? _]%app_eq_nil. destruct (values_of d _); [cbn in *; lia|done]. }
  cbn [app]. unfold summary_trace, summary_head. cbn [app].
  rewrite drop_0, row_events_app by lia. by rewrite <- app_assoc.
Qed.

End Summary.

(** ** [main], case by case *)
Section MainCases.

Variable py_sum : list float -> float.
Variable drawable : string -> bool.
Variable fs : filesystem.
Variable p : process.

Lemma aggregate_run (names : list string) :
  fs (base_dir_of p) = Some (Dir names) ->
  aggregate fs (base_dir_of p)
  = (scan_events fs (base_dir_of p) names,
     Return (aggregated fs (base_dir_of p) names)).
Proof.
  intros H. unfold aggregate, listdir. rewrite H, mret_bind.
  apply scan_spec.
Qed.

Lemma main_missing :
  fs (base_dir_of p) = None ->
  main py_sum drawable fs p
  = ([Print (MsgDirNotFound (base_dir_of p)); Print (MsgUsage (argv0 p))],
     SysExit 1).
Proof.
  intros H. unfold main, path_exists. rewrite H. done.
Qed.

Lemma main_not_a_directory (st : file_state) :
  fs (base_dir_of p) = Some (File st) ->
  main py_sum drawable fs p = ([], Raise (NotADirectoryError (base_dir_of p))).
Proof.
  intros H. unfold main, path_exists, aggregate, listdir. rewrite H. done.
Qed.

Lemma main_locked (e : exn) :
  fs (base_dir_of p) = Some (LockedDir e) ->
  main py_sum drawable fs p = ([], Raise e).
Proof.
  intros H. unfold main, path_exists, aggregate, listdir. rewrite H. done.
Qed.

Lemma main_no_data (names : list string) :
  fs (base_dir_of p) = Some (Dir names) ->
  aggregated fs (base_dir_of p) names = ∅ ->
  main py_sum drawable fs p
  = (scan_events fs (base_dir_of p) names ++ [Print MsgNoData], SysExit 1).
Proof.
  intros H Hd. unfold main, path_exists.
  rewrite H, (aggregate_run names H), Hd. cbn [negb]. rewrite mret_bind.
  rewrite bind_Return. rewrite decide_True by done. done.
Qed.

Lemma main_chart (names : list string) :
  fs (base_dir_of p) = Some (Dir names) ->
  aggregated fs (base_dir_of p) names <> ∅ ->
  let apps := entities fs (base_dir_of p) names in
  let values := entity_values fs (base_dir_of p) names in
  main py_sum drawable fs p
  = (scan_events fs (base_dir_of p) names
     ++ summary_trace drawable apps values (average_of py_sum values),
     render_result drawable (values ++ [average_of py_sum values])
       ((get_full_app_name <$> apps) ++ [average_label])).
Proof.
  intros H Hd. cbv zeta. unfold main, path_exists.
  rewrite H, (aggregate_run names H). cbn [negb]. rewrite mret_bind.
  eapply run_bind; [reflexivity|cbv beta].
  rewrite decide_False by done. rewrite mret_bind.
  by apply summarize_spec.
Qed.

(** The chart is drawn to its end when [plt.ylim] accepts the top of
    the axis and every label can be laid out. *)
Lemma render_complete (apps : list string) (values : list float)
      (labels : list string) :
  is_finite (chart_top values) = true ->
  forallb drawable labels = true ->
  render_trace drawable apps values labels = render_events apps values labels
  /\ render_result drawable values labels = Return tt.
Proof.
  intros Hfin Hok. unfold render_trace, render_result, render_events.
  by rewrite Hfin, Hok.
Qed.

Lemma main_chart_complete (names : list string) :
  fs (base_dir_of p) = Some (Dir names) ->
  aggregated fs (base_dir_of p) names <> ∅ ->
  let apps := entities fs (base_dir_of p) names in
  let values := entity_values fs (base_dir_of p) names in
  is_finite (chart_top (values ++ [average_of py_sum values])) = true ->
  forallb drawable ((get_full_app_name <$> apps) ++ [average_label]) = true ->
  main py_sum drawable fs p
  = (scan_events fs (base_dir_of p) names
     ++ summary_events apps values (average_of py_sum values),
     Return tt).
Proof.
  intros H Hd apps values Hfin Hok. rewrite (main_chart names H Hd).
  fold apps values. unfold summary_trace, summary_events.
  by destruct (render_complete (apps ++ ["Average"])
                 (values ++ [average_of py_sum values])
                 ((get_full_app_name <$> apps) ++ [average_label]) Hfin Hok)
    as [-> ->].
Qed.

End MainCases.

(** ** Traces *)
Section Traces.

Lemma plots_app (t1 t2 : list event) : plots (t1 ++ t2) = plots t1 ++ plots t2.
Proof. apply omap_app. Qed.

Lemma opens_app (t1 t2 : list event) : opens (t1 ++ t2) = opens t1 ++ opens t2.
Proof. apply omap_app. Qed.

Lemma saved_app (t1 t2 : list event) : saved (t1 ++ t2) = saved t1 ++ saved t2.
Proof. unfold saved. by rewrite plots_app, omap_app. Qed.

Lemma extract_trace (fs : filesystem) (f : string) :
  trace (extract_backend_bound fs f) = [Open f]
  \/ exists e,
       trace (extract_backend_bound fs f)
       = [Open f; Print (MsgErrorReading f e)].
Proof.
  destruct (read_error fs f) as [e|] eqn:He.
  - right. exists e. by rewrite (extract_unreadable fs f e He).
  - apply read_error_None in He as [text Htext].
    rewrite (extract_readable fs f text Htext).
    destruct (Re.search backend_pattern text) as [[[cap|]]|]; cbn;
      [destruct (parse_float cap)|..]; eauto.
Qed.

Lemma extract_plots (fs : filesystem) (f : string) :
  plots (trace (extract_backend_bound fs f)) = [].
Proof. by destruct (extract_trace fs f) as [->|[e ->]]. Qed.

Lemma extract_length (fs : filesystem) (f : string) :
  length (trace (extract_backend_bound fs f)) <= 2.
Proof. destruct (extract_trace fs f) as [->|[e ->]]; cbn; lia. Qed.

(** A value is returned without any message. *)
Lemma extract_Some_trace (fs : filesystem) (f : string) (v : float) :
  result (extract_backend_bound fs f) = Return (Some v) ->
  trace (extract_backend_bound fs f) = [Open f].
Proof.
  destruct (read_error fs f) as [e|] eqn:He.
  - by rewrite (extract_unreadable fs f e He).
  - apply read_error_None in He as [text Htext].
    rewrite (extract_readable fs f text Htext).
    destruct (Re.search backend_pattern text) as [[[cap|]]|]; cbn;
      [destruct (parse_float cap)|..]; done.
Qed.

Variable fs : filesystem.
Variable base_dir : string.

Lemma yield_result (app_dir : string) (v : float) :
  yield fs base_dir app_dir = Some v ->
  result (extract_backend_bound fs (summary_path base_dir app_dir))
  = Return (Some v).
Proof. by intros (_ & _ & H)%yield_contributes. Qed.

Lemma visit_events_plots (app_dir : string) :
  plots (visit_events fs base_dir app_dir) = [].
Proof.
  unfold visit_events. destruct (_ && _); [|done].
  rewrite plots_app, extract_plots.
  by destruct (yield fs base_dir app_dir).
Qed.

Lemma visit_events_length (app_dir : string) :
  length (visit_events fs base_dir app_dir) <= 2.
Proof.
  unfold visit_events. destruct (_ && _); [|cbn; lia].
  rewrite length_app.
  destruct (yield fs base_dir app_dir) as [v|] eqn:Hy.
  - apply yield_result, extract_Some_trace in Hy. rewrite Hy. cbn. lia.
  - pose proof (extract_length fs (summary_path base_dir app_dir)).
    cbn. lia.
Qed.

Lemma visit_events_opens (app_dir : string) :
  opens (visit_events fs base_dir app_dir)
  = if isdir fs (path_join base_dir app_dir)
       && path_exists fs (summary_path base_dir app_dir)
    then [summary_path base_dir app_dir] else [].
Proof.
  unfold visit_events. destruct (_ && _); [|done].
  rewrite opens_app, extract_opens.
  by destruct (yield fs base_dir app_dir).
Qed.

Lemma bind_events_plots (l : list string) :
  plots (l ≫= visit_events fs base_dir) = [].
Proof.
  induction l as [|a l IH]; [done|]. cbn [mbind list_bind].
  change (plots (visit_events fs base_dir a ++ l ≫= visit_events fs base_dir) = []).
  by rewrite plots_app, visit_events_plots, IH.
Qed.

Lemma bind_events_length (l : list string) :
  length (l ≫= visit_events fs base_dir) <= 2 * length l.
Proof.
  induction l as [|a l IH]; [done|].
  change (length (visit_events fs base_dir a ++ l ≫= visit_events fs base_dir)
          <= 2 * length (a :: l)).
  rewrite length_app. pose proof (visit_events_length a). cbn [length]. lia.
Qed.

Lemma bind_events_opens (l : list string) :
  opens (l ≫= visit_events fs base_dir)
  = summary_path base_dir
    <$> filter (fun a => has_summary fs base_dir a = true) l.
Proof.
  induction l as [|a l IH]; [done|].
  change (opens (visit_events fs base_dir a ++ l ≫= visit_events fs base_dir)
          = summary_path base_dir
            <$> filter (fun a => has_summary fs base_dir a = true) (a :: l)).
  rewrite opens_app, visit_events_opens, IH, filter_cons.
  fold (has_summary fs base_dir a).
  destruct (has_summary fs base_dir a) eqn:Hc.
  - by rewrite decide_True by done.
  - by rewrite decide_False by done.
Qed.

Lemma row_events_plots (apps : list string) (vs : list float) :
  plots (row_events apps vs) = [].
Proof.
  revert vs. induction apps as [|a apps IH]; intros [|v vs]; try done.
  cbn. apply IH.
Qed.

Lemma row_events_opens (apps : list string) (vs : list float) :
  opens (row_events apps vs) = [].
Proof.
  revert vs. induction apps as [|a apps IH]; intros [|v vs]; try done.
  cbn. apply IH.
Qed.

Lemma row_events_length (apps : list string) (vs : list float) :
  length (row_events apps vs) <= length apps.
Proof. unfold row_events. rewrite length_zip_with. lia. Qed.

Lemma plots_Plot (l : list plot_call) : plots (Plot <$> l) = l.
Proof. induction l as [|c l IH]; [done|]. cbn. by f_equal. Qed.

Lemma opens_Plot (l : list plot_call) : opens (Plot <$> l) = [].
Proof. by induction l. Qed.

Lemma limit_calls_length (apps : list string) (values : list float)
      (labels : list string) :
  length (limit_calls apps values labels) <= 12.
Proof.
  unfold limit_calls.
  rewrite !length_app. destruct (decide (1 < length apps)); cbn; lia.
Qed.

Lemma render_events_plots (apps : list string) (values : list float)
      (labels : list string) :
  plots (render_events apps values labels) = chart_calls apps values labels.
Proof.
  unfold render_events, chart_calls, limit_events, layout_events.
  by rewrite !plots_app, !plots_Plot.
Qed.

Lemma render_trace_plots (drawable : string -> bool) (apps : list string)
      (values : list float) (labels : list string) :
  plots (render_trace drawable apps values labels)
  = made_calls drawable apps values labels.
Proof.
  unfold render_trace, made_calls, limit_events, layout_events.
  rewrite plots_app, plots_Plot.
  destruct (is_finite _); [|done].
  rewrite plots_app, plots_Plot. by destruct (forallb _ _).
Qed.

Lemma render_trace_opens (drawable : string -> bool) (apps : list string)
      (values : list float) (labels : list string) :
  opens (render_trace drawable apps values labels) = [].
Proof.
  unfold render_trace, limit_events, layout_events.
  rewrite opens_app, opens_Plot.
  destruct (is_finite _); [|done].
  rewrite opens_app, opens_Plot. by destruct (forallb _ _).
Qed.

Lemma render_trace_length (drawable : string -> bool) (apps : list string)
      (values : list float) (labels : list string) :
  length (render_trace drawable apps values labels) <= 34.
Proof.
  unfold render_trace, limit_events.
  rewrite length_app, length_fmap.
  pose proof (limit_calls_length apps values labels).
  assert (length layout_events = 14) as Hl by reflexivity.
  assert (length save_events = 8) as Hs by reflexivity.
  destruct (is_finite _); [|cbn [length]; lia].
  rewrite length_app, Hl. destruct (forallb _ _); [rewrite Hs|cbn [length]]; lia.
Qed.

Lemma summary_head_plots (apps : list string) (vs : list float)
      (avg : float) :
  plots (summary_head apps vs avg) = [].
Proof.
  unfold summary_head. by rewrite !plots_app, row_events_plots.
Qed.

Lemma summary_head_opens (apps : list string) (vs : list float)
      (avg : float) :
  opens (summary_head apps vs avg) = [].
Proof.
  unfold summary_head. by rewrite !opens_app, row_events_opens.
Qed.

Lemma summary_events_plots (apps : list string) (vs : list float)
      (avg : float) :
  plots (summary_events apps vs avg)
  = chart_calls (apps ++ ["Average"]) (vs ++ [avg])
      ((get_full_app_name <$> apps) ++ [average_label]).
Proof.
  unfold summary_events.
  by rewrite plots_app, summary_head_plots, render_events_plots.
Qed.

Lemma summary_trace_plots (drawable : string -> bool) (apps : list string)
      (vs : list float) (avg : float) :
  plots (summary_trace drawable apps vs avg)
  = made_calls drawable (apps ++ ["Average"]) (vs ++ [avg])
      ((get_full_app_name <$> apps) ++ [average_label]).
Proof.
  unfold summary_trace.
  by rewrite plots_app, summary_head_plots, render_trace_plots.
Qed.

End Traces.

(** ** The aggregated data *)
Section Aggregated.

Variable fs : filesystem.
Variable base_dir : string.

Lemma aggregated_lookup (names : list string) (app_dir : string) (v : float) :
  aggregated fs base_dir names !! app_dir = Some v
  <-> app_dir ∈ names /\ contributes fs base_dir app_dir v.
Proof.
  unfold aggregated. rewrite foldl_visit_lookup, lookup_empty.
  rewrite <- yield_contributes.
  destruct (yield fs base_dir app_dir) as [v'|];
    [|by split; [|intros [_ ?]]].
  destruct (decide (app_dir ∈ sorted names)) as [Hin|Hin];
    rewrite sorted_elem_of in Hin; [tauto|].
  split; [done|]. by intros [? _].
Qed.

Lemma aggregated_empty (names : list string) :
  aggregated fs base_dir names = ∅
  <-> forall app_dir v,
        app_dir ∈ names -> ~ contributes fs base_dir app_dir v.
Proof.
  split.
  - intros Hd k v Hin Hc.
    assert (aggregated fs base_dir names !! k = Some v) as Hl
      by by apply aggregated_lookup.
    by rewrite Hd, lookup_empty in Hl.
  - intros H. apply map_empty. intros k.
    destruct (aggregated fs base_dir names !! k) as [v|] eqn:Hl; [|done].
    apply aggregated_lookup in Hl as [Hin Hc]. by destruct (H k v).
Qed.

Lemma aggregated_nonempty (names : list string) (app_dir : string)
      (v : float) :
  app_dir ∈ names -> contributes fs base_dir app_dir v ->
  aggregated fs base_dir names <> ∅.
Proof.
  intros Hin Hc Hd. rewrite aggregated_empty in Hd. by apply (Hd app_dir v).
Qed.

End Aggregated.

(** ** The entities of the chart *)
Section Entities.

Variable fs : filesystem.
Variable base_dir : string.
Variable names : list string.

Lemma keys_NoDup (d : gmap string float) : NoDup (keys d).
Proof. apply NoDup_fst_map_to_list. Qed.

Lemma sorted_NoDup (l : list string) : NoDup l -> NoDup (sorted l).
Proof. unfold sorted. by rewrite merge_sort_Permutation. Qed.

Lemma sorted_Sorted (l : list string) : Sorted String.le (sorted l).
Proof. apply (Sorted_merge_sort String.le). Qed.

Lemma entities_NoDup : NoDup (entities fs base_dir names).
Proof. apply sorted_NoDup, keys_NoDup. Qed.

Lemma entities_Sorted : Sorted String.le (entities fs base_dir names).
Proof. apply sorted_Sorted. Qed.

Lemma entities_elem_of (D : string) :
  D ∈ entities fs base_dir names
  <-> exists v, D ∈ names /\ contributes fs base_dir D v.
Proof.
  unfold entities. rewrite sorted_keys_elem_of. unfold is_Some.
  by setoid_rewrite aggregated_lookup.
Qed.

Lemma entities_values :
  Forall2 (fun D v => D ∈ names /\ contributes fs base_dir D v)
    (entities fs base_dir names) (entity_values fs base_dir names).
Proof.
  eapply Forall2_impl.
  - apply values_of_present. intros k. apply sorted_keys_elem_of.
  - intros D v. apply aggregated_lookup.
Qed.

Lemma entity_values_length :
  length (entity_values fs base_dir names)
  = length (entities fs base_dir names).
Proof. symmetry. eapply Forall2_length, entities_values. Qed.

Lemma entities_length : length (entities fs base_dir names) <= length names.
Proof.
  apply submseteq_length, NoDup_submseteq; [apply entities_NoDup|].
  by intros D (v & Hin & _)%entities_elem_of.
Qed.

Lemma entities_nonempty :
  aggregated fs base_dir names <> ∅ -> entities fs base_dir names <> [].
Proof. intros H. by apply sorted_nonempty, keys_nonempty. Qed.

End Entities.

(** ** What [main] plots *)
Section MainPlots.

Lemma elem_of_plots (c : plot_call) (t : list event) :
  Plot c ∈ t <-> c ∈ plots t.
Proof.
  unfold plots. rewrite list_elem_of_omap. split.
  - intros H. by exists (Plot c).
  - intros ([p|m|c'] & Hin & Heq); by simplify_eq.
Qed.

Variable py_sum : list float -> float.
Variable drawable : string -> bool.
Variable fs : filesystem.
Variable p : process.
Variable names : list string.

(** The plot calls of a run that gets to the chart: the calls up to
    [plt.ylim] at least. *)
Lemma main_plots :
  fs (base_dir_of p) = Some (Dir names) ->
  aggregated fs (base_dir_of p) names <> ∅ ->
  plots (trace (main py_sum drawable fs p))
  = made_calls drawable (entities fs (base_dir_of p) names ++ ["Average"])
      (entity_values fs (base_dir_of p) names
       ++ [average_of py_sum (entity_values fs (base_dir_of p) names)])
      ((get_full_app_name <$> entities fs (base_dir_of p) names)
       ++ [average_label]).
Proof.
  intros H Hd. rewrite (main_chart py_sum drawable fs p names H Hd).
  cbn [trace fst]. unfold scan_events.
  by rewrite plots_app, bind_events_plots, summary_trace_plots.
Qed.

Lemma made_calls_limit d apps values labels (c : plot_call) :
  c ∈ limit_calls apps values labels -> c ∈ made_calls d apps values labels.
Proof. intros Hc. unfold made_calls. apply elem_of_app. by left. Qed.

Lemma made_calls_complete d apps values labels :
  is_finite (chart_top values) = true ->
  forallb d labels = true ->
  made_calls d apps values labels = chart_calls apps values labels.
Proof. intros Hfin Hok. unfold made_calls, chart_calls. by rewrite Hfin, Hok. Qed.

Lemma limit_calls_Bar apps values labels :
  Bar (x_positions (length apps)) values width
  ∈ limit_calls apps values labels.
Proof.
  unfold limit_calls. apply elem_of_app. left.
  do 4 apply list_elem_of_further. apply list_elem_of_here.
Qed.

Lemma limit_calls_SetXticks apps values labels :
  SetXticks (x_positions (length apps)) ∈ limit_calls apps values labels.
Proof.
  unfold limit_calls. apply elem_of_app. right. apply elem_of_app. right.
  apply list_elem_of_here.
Qed.

Lemma limit_calls_SetXticklabels apps values labels :
  SetXticklabels labels ∈ limit_calls apps values labels.
Proof.
  unfold limit_calls. apply elem_of_app. right. apply elem_of_app. right.
  apply list_elem_of_further, list_elem_of_here.
Qed.

Lemma limit_calls_Ylim apps values labels :
  Ylim 0 (chart_top values) ∈ limit_calls apps values labels.
Proof.
  unfold limit_calls. apply elem_of_app. right. apply elem_of_app. right.
  do 5 apply list_elem_of_further. apply list_elem_of_here.
Qed.

Lemma forallb_false {A} (f : A -> bool) (l : list A) :
  forallb f l = false -> exists x, x ∈ l /\ f x = false.
Proof.
  induction l as [|x l IH]; [done|]. cbn [forallb].
  destruct (f x) eqn:Hx.
  - intros (y & Hy & Hf)%IH. exists y. split; [by right|done].
  - intros _. exists x. split; [by left|done].
Qed.

Lemma limit_calls_last apps values labels :
  last (limit_calls apps values labels) = Some (Ylim 0 (chart_top values)).
Proof. unfold limit_calls. by destruct (decide (1 < length apps)). Qed.

Lemma limit_calls_saved apps values labels :
  omap (fun c => match c with Savefig f => Some f | _ => None end)
    (limit_calls apps values labels) = [].
Proof. unfold limit_calls. by destruct (decide (1 < length apps)). Qed.

Lemma summary_head_average apps vs avg :
  Print (MsgAverage avg) ∈ summary_head apps vs avg.
Proof.
  unfold summary_head. apply elem_of_app. right. apply elem_of_app. right.
  apply list_elem_of_further, list_elem_of_here.
Qed.

End MainPlots.

(** ** Display names *)
Section Names.

Lemma dict_get_default (d : list (string * string)) (k dflt : string) :
  k ∉ d.*1 -> dict_get d k dflt = dflt.
Proof.
  induction d as [|[k' v] d IH]; [done|]. cbn. intros Hk.
  apply not_elem_of_cons in Hk as [Hne Hk].
  destruct (String.eqb_spec k' k) as [->|]; [done|]. by apply IH.
Qed.

Lemma dict_get_elem_of (d : list (string * string)) (k v dflt : string) :
  NoDup d.*1 -> (k, v) ∈ d -> dict_get d k dflt = v.
Proof.
  induction d as [|[k' v'] d IH]; intros Hnd Hin.
  - by apply elem_of_nil in Hin.
  - cbn in *. apply NoDup_cons in Hnd as [Hk' Hnd].
    destruct (String.eqb_spec k' k) as [->|Hne].
    + apply elem_of_cons in Hin as [[= ->]|Hin]; [done|].
      destruct Hk'. apply list_elem_of_fmap. by exists (k, v).
    + apply elem_of_cons in Hin as [[= -> ->]|Hin]; [done|]. by apply IH.
Qed.

Lemma name_map_NoDup : NoDup name_map.*1.
Proof.
  apply NoDup_ListNoDup. cbn.
  repeat (constructor;
          [cbn; intros H;
           repeat (destruct H as [H|H]; [discriminate|]); done|]).
  constructor.
Qed.

End Names.

(** ** Runs over the same contents *)
Section SameContents.

Variables fs1 fs2 : filesystem.
Hypothesis Hsame : same_contents fs1 fs2.

Lemma same_path_exists path : path_exists fs1 path = path_exists fs2 path.
Proof.
  unfold path_exists. specialize (Hsame path). unfold same_entry in Hsame.
  destruct (fs1 path) as [[st|l1|e1]|], (fs2 path) as [[st'|l2|e2]|]; done.
Qed.

Lemma same_isdir path : isdir fs1 path = isdir fs2 path.
Proof.
  unfold isdir. specialize (Hsame path). unfold same_entry in Hsame.
  destruct (fs1 path) as [[st|l1|e1]|], (fs2 path) as [[st'|l2|e2]|]; done.
Qed.

Lemma same_open_read path : open_read fs1 path = open_read fs2 path.
Proof.
  unfold open_read. specialize (Hsame path). unfold same_entry in Hsame.
  destruct (fs1 path) as [[st|l1|e1]|], (fs2 path) as [[st'|l2|e2]|];
    by simplify_eq.
Qed.

Lemma same_extract path :
  extract_backend_bound fs1 path = extract_backend_bound fs2 path.
Proof. unfold extract_backend_bound. by rewrite same_open_read. Qed.

Lemma same_yield base_dir app_dir :
  yield fs1 base_dir app_dir = yield fs2 base_dir app_dir.
Proof. unfold yield. by rewrite same_isdir, same_path_exists, same_extract. Qed.

Lemma same_visit_events base_dir app_dir :
  visit_events fs1 base_dir app_dir = visit_events fs2 base_dir app_dir.
Proof.
  unfold visit_events.
  by rewrite same_isdir, same_path_exists, same_extract, same_yield.
Qed.

Lemma same_sorted (l1 l2 : list string) : l1 ≡ₚ l2 -> sorted l1 = sorted l2.
Proof.
  intros Hp. apply (Sorted_unique String.le); try apply sorted_Sorted.
  unfold sorted. by rewrite !merge_sort_Permutation.
Qed.

Lemma same_scan_events base_dir (l : list string) :
  l ≫= visit_events fs1 base_dir = l ≫= visit_events fs2 base_dir.
Proof.
  induction l as [|a l IH]; [done|]. cbn [mbind list_bind].
  change (visit_events fs1 base_dir a ++ l ≫= visit_events fs1 base_dir
          = visit_events fs2 base_dir a ++ l ≫= visit_events fs2 base_dir).
  by rewrite IH, same_visit_events.
Qed.

Lemma same_foldl_visit base_dir (l : list string) (d : gmap string float) :
  foldl (visit fs1 base_dir) d l = foldl (visit fs2 base_dir) d l.
Proof.
  revert d. induction l as [|a l IH]; intros d; [done|]. cbn [foldl].
  rewrite IH. unfold visit. by rewrite same_yield.
Qed.

Lemma same_main (py_sum : list float -> float)
        (drawable : string -> bool) (p : process) :
  main py_sum drawable fs1 p = main py_sum drawable fs2 p.
Proof.
  pose proof (Hsame (base_dir_of p)) as Hb. unfold same_entry in Hb.
  destruct (fs1 (base_dir_of p)) as [[st|l1|e]|] eqn:H1.
  - symmetry in Hb.
    by rewrite (main_not_a_directory py_sum drawable fs1 p st H1),
      (main_not_a_directory py_sum drawable fs2 p st Hb).
  - destruct (fs2 (base_dir_of p)) as [[st|l2|e]|] eqn:H2; try done.
    assert (scan_events fs1 (base_dir_of p) l1
            = scan_events fs2 (base_dir_of p) l2) as Hev.
    { unfold scan_events.
      by rewrite (same_sorted l1 l2 Hb), same_scan_events. }
    assert (aggregated fs1 (base_dir_of p) l1
            = aggregated fs2 (base_dir_of p) l2) as Hagg.
    { unfold aggregated.
      by rewrite (same_sorted l1 l2 Hb), same_foldl_visit. }
    destruct (decide (aggregated fs1 (base_dir_of p) l1 = ∅)) as [Hd|Hd].
    + rewrite (main_no_data py_sum drawable fs1 p l1 H1 Hd).
      rewrite Hagg in Hd.
      by rewrite (main_no_data py_sum drawable fs2 p l2 H2 Hd), Hev.
    + rewrite (main_chart py_sum drawable fs1 p l1 H1 Hd).
      pose proof Hd as Hd'. rewrite Hagg in Hd'.
      rewrite (main_chart py_sum drawable fs2 p l2 H2 Hd').
      cbv zeta. unfold entity_values, entities. by rewrite Hev, Hagg.
  - symmetry in Hb.
    by rewrite (main_locked py_sum drawable fs1 p e H1),
      (main_locked py_sum drawable fs2 p e Hb).
  - symmetry in Hb.
    by rewrite (main_missing py_sum drawable fs1 p H1),
      (main_missing py_sum drawable fs2 p Hb).
Qed.

End SameContents.

(** ** The literals [float] accepts *)
Section Literals.

Lemma read_digits_span (s : string) (acc : N) :
  exists v,
    read_digits s acc
    = (v, String.length (span is_digit s).1, (span is_digit s).2).
Proof.
  revert acc. induction s as [|c s IH]; intros acc; [by eexists|].
  cbn [read_digits span]. destruct (is_digit c); [|by eexists].
  destruct (IH (10 * acc + (code c - 48))%N) as [v ->].
  destruct (span is_digit s) as [run rest]. by eexists.
Qed.

Lemma digit_is_capture c : is_digit c = true -> is_digit_or_dot c = true.
Proof. unfold is_digit_or_dot. by intros ->. Qed.

Lemma digit_not_dot c : is_digit c = true -> Ascii.eqb c "." = false.
Proof. by destruct c as [[] [] [] [] [] [] [] []]. Qed.

Lemma all_chars_digits (run rest : string) :
  all_chars is_digit run = true ->
  all_chars is_digit_or_dot (run +:+ rest) = all_chars is_digit_or_dot rest.
Proof.
  induction run as [|c run IH]; [done|].
  cbn [all_chars]. intros [Hc Hr]%andb_prop.
  rewrite app_cons. cbn [all_chars]. by rewrite IH, (digit_is_capture c Hc).
Qed.

Lemma count_dots_digits (run rest : string) :
  all_chars is_digit run = true ->
  count_dots (run +:+ rest) = count_dots rest.
Proof.
  induction run as [|c run IH]; [done|].
  cbn [all_chars]. intros [Hc Hr]%andb_prop.
  rewrite app_cons. cbn [count_dots]. by rewrite IH, (digit_not_dot c Hc).
Qed.

Lemma has_digit_digits (run rest : string) :
  all_chars is_digit run = true ->
  has_digit (run +:+ rest) = negb (String.eqb run "") || has_digit rest.
Proof.
  destruct run as [|c run]; [done|].
  cbn [all_chars]. intros [Hc Hr]%andb_prop.
  rewrite app_cons. cbn [has_digit]. by rewrite Hc.
Qed.

(** A run of digits in front of [rest] changes nothing but the
    presence of a digit. *)
Lemma valid_literal_digits (run rest : string) :
  all_chars is_digit run = true ->
  valid_literal (run +:+ rest)
  = all_chars is_digit_or_dot rest && Nat.leb (count_dots rest) 1
    && (negb (String.eqb run "") || has_digit rest).
Proof.
  intros H. unfold valid_literal.
  by rewrite all_chars_digits, count_dots_digits, has_digit_digits.
Qed.

Lemma not_digit_rest (c : ascii) (s : string) :
  is_digit c = false ->
  all_chars is_digit_or_dot (String c s) && Nat.leb (count_dots (String c s)) 1
  = Ascii.eqb c "." && all_chars is_digit_or_dot s
    && Nat.eqb (count_dots s) 0.
Proof.
  intros Hc. cbn. unfold is_digit_or_dot. rewrite Hc. cbn.
  destruct (Ascii.eqb c "."); [|done]. cbn.
  destruct (all_chars _ s); [|done]. cbn. by destruct (count_dots s).
Qed.

Lemma not_digit_no_dot (c : ascii) (s : string) :
  is_digit c = false ->
  all_chars is_digit_or_dot (String c s)
  && Nat.eqb (count_dots (String c s)) 0 = false.
Proof.
  intros Hc. cbn. unfold is_digit_or_dot. rewrite Hc. cbn.
  destruct (Ascii.eqb c "."); [|done]. cbn. apply andb_false_r.
Qed.

(** [parse_float] accepts exactly the valid literals. *)
Lemma parse_float_valid (s : string) :
  is_Some (parse_float s) <-> valid_literal s = true.
Proof.
  unfold parse_float.
  destruct (read_digits_span s 0%N) as [i ->].
  pose proof (span_app is_digit s) as Happ.
  pose proof (span_all is_digit s) as Hall.
  pose proof (span_rest is_digit s) as Hrest.
  destruct (span is_digit s) as [run rest]. cbn [fst snd] in *.
  rewrite <- Happ, (valid_literal_digits run rest Hall).
  assert (Nat.eqb (String.length run) 0 = String.eqb run "") as Hrun
    by by destruct run.
  destruct rest as [|c rest].
  - rewrite Hrun. cbn. destruct (String.eqb run ""); cbn;
      rewrite ?is_Some_alt; done.
  - cbn [starts_in] in Hrest.
    rewrite (not_digit_rest c rest Hrest).
    destruct (Ascii.eqb c "."); [|by rewrite is_Some_alt].
    destruct (read_digits_span rest i) as [m ->].
    pose proof (span_app is_digit rest) as Happ'.
    pose proof (span_all is_digit rest) as Hall'.
    pose proof (span_rest is_digit rest) as Hrest'.
    destruct (span is_digit rest) as [run' rest']. cbn [fst snd] in *.
    assert (Nat.eqb (String.length run + String.length run') 0
            = String.eqb run "" && String.eqb run' "") as Hrun'
      by by destruct run, run'.
    rewrite Hrun'. subst rest. cbn [has_digit]. rewrite Hrest.
    rewrite (all_chars_digits run' rest' Hall'),
      (count_dots_digits run' rest' Hall'),
      (has_digit_digits run' rest' Hall').
    destruct rest' as [|c' rest'].
    + cbn. destruct (String.eqb run ""), (String.eqb run' ""); cbn;
        rewrite ?is_Some_alt; done.
    + cbn [starts_in] in Hrest'. cbn [andb].
      rewrite (not_digit_no_dot c' rest' Hrest'). by rewrite is_Some_alt.
Qed.

Lemma parse_float_None (s : string) :
  parse_float s = None <-> valid_literal s = false.
Proof.
  pose proof (parse_float_valid s) as H. rewrite is_Some_alt in H.
  destruct (parse_float s), (valid_literal s); intuition done.
Qed.

End Literals.

(** ** Paths *)
Section Paths.

Lemma endswith_slash_app (s t : string) :
  t <> "" -> endswith_slash (s +:+ t) = endswith_slash t.
Proof.
  intros Ht. induction s as [|c s IH]; [done|].
  rewrite app_cons. cbn [endswith_slash]. rewrite IH.
  destruct (s +:+ t) eqn:Hst; [|done].
  destruct s; [|by rewrite app_cons in Hst]. by rewrite app_empty_l in Hst.
Qed.

Lemma no_slash_endswith (s : string) : no_slash s = true -> endswith_slash s = false.
Proof.
  unfold no_slash. induction s as [|c s IH]; [done|].
  cbn [all_chars]. intros [Hc Hs]%andb_prop. cbn [endswith_slash].
  destruct s; [by destruct (Ascii.eqb c "/")|]. by apply IH.
Qed.

Lemma no_slash_startswith (s : string) :
  no_slash s = true -> startswith_slash s = false.
Proof.
  destruct s as [|c s]; [done|]. unfold no_slash. cbn.
  intros [Hc _]%andb_prop. by destruct (Ascii.eqb c "/").
Qed.

Lemma app_nonempty_r (s t : string) : t <> "" -> s +:+ t <> "".
Proof. destruct s; [done|]. by rewrite app_cons. Qed.

(** Both joins of the summary path, written out. *)
Lemma summary_path_joined (base_dir D : string) :
  base_dir <> "" -> D <> "" -> no_slash D = true ->
  path_join (path_join base_dir D) (D +:+ "_topdown_summary.txt")
  = (if endswith_slash base_dir then base_dir else base_dir +:+ "/")
    +:+ D +:+ "/" +:+ D +:+ "_topdown_summary.txt".
Proof.
  intros Hb HD Hs. 
  assert (path_join base_dir D
          = (if endswith_slash base_dir then base_dir else base_dir +:+ "/")
            +:+ D) as ->.
  { unfold path_join. rewrite (no_slash_startswith D Hs).
    rewrite (eqb_empty_false base_dir Hb). cbn [orb].
    destruct (endswith_slash base_dir); [done|]. by rewrite app_assoc_str. }
  set (prefix := if endswith_slash base_dir then base_dir else base_dir +:+ "/").
  unfold path_join.
  assert (startswith_slash (D +:+ "_topdown_summary.txt") = false) as ->.
  { destruct D as [|c D']; [done|]. rewrite app_cons.
    by apply (no_slash_startswith (String c D')). }
  rewrite (eqb_empty_false (prefix +:+ D)) by by apply app_nonempty_r.
  rewrite (endswith_slash_app prefix D HD), (no_slash_endswith D Hs).
  cbn [orb]. by rewrite !app_assoc_str.
Qed.

End Paths.

(** * The claims *)

(** C3.  The aggregated data maps each entity to at most one value (it
    is a dictionary): entry [D] of the listing of the base directory is
    mapped to [v] exactly when [D] is a directory, the file
    [D/D_topdown_summary.txt] exists in it and [extract_backend_bound]
    returns [v] for that file.  Entries that are not directories,
    directories without the file and files without an extractable value
    are not keys.  The file is named by joining the base directory, [D]
    and [D_topdown_summary.txt]: for a base directory with a name and an
    entry name without a slash, [base_dir/D/D_topdown_summary.txt]. *)
Theorem aggregate_entities (fs : filesystem) (base_dir : string)
        (names : list string) :
  fs base_dir = Some (Dir names) ->
  let file := fun D =>
    path_join (path_join base_dir D) (D +:+ "_topdown_summary.txt") in
  exists t d,
    aggregate fs base_dir = (t, Return d)
    /\ (forall D v,
          d !! D = Some v
          <-> D ∈ names
              /\ isdir fs (path_join base_dir D) = true
              /\ path_exists fs (file D) = true
              /\ result (extract_backend_bound fs (file D)) = Return (Some v))
    /\ (forall D, isdir fs (path_join base_dir D) = false -> d !! D = None)
    /\ (forall D, path_exists fs (file D) = false -> d !! D = None)
    /\ (forall D,
          result (extract_backend_bound fs (file D)) = Return None ->
          d !! D = None)
    /\ (forall D,
          base_dir <> "" -> D <> "" -> no_slash D = true ->
          file D
          = (if endswith_slash base_dir then base_dir else base_dir +:+ "/")
            +:+ D +:+ "/" +:+ D +:+ "_topdown_summary.txt").
Proof.
  intros H file. exists (scan_events fs base_dir names),
    (aggregated fs base_dir names).
  split; [|split; [apply aggregated_lookup|]].
  { unfold aggregate, listdir. rewrite H, mret_bind. apply scan_spec. }
  split; [|split; [|split]];
    try (intros D HD;
         destruct (aggregated fs base_dir names !! D) as [v|] eqn:Hl;
         [|done];
         apply aggregated_lookup in Hl as [_ (H1 & H2 & H3)];
         unfold summary_path in H2, H3; fold (file D) in H2, H3; congruence).
  intros D. apply summary_path_joined.
Qed.

(** C4.  When reading the file raises an exception, whatever it is,
    [extract_backend_bound] prints the error message and returns [None];
    on every path it returns normally (no exception reaches the caller),
    and it opens the file exactly once. *)
Theorem extract_catches_read_errors (fs : filesystem) (f : string) :
  (forall e,
     open_read fs f = ([Open f], Raise e) ->
     extract_backend_bound fs f
     = ([Open f; Print (MsgErrorReading f e)], Return None))
  /\ (exists r, result (extract_backend_bound fs f) = Return r)
  /\ opens (trace (extract_backend_bound fs f)) = [f].
Proof.
  split; [|split].
  - intros e He. by apply extract_unreadable, open_read_error.
  - apply extract_returns.
  - apply extract_opens.
Qed.

(** C5 (as amended).  When at least one entry of the listing yields a
    value, [main] asks for the bars.  It saves the figure three times,
    as backend_bound_plot.png, backend_bound_plot.pdf and
    backend_bound_plot.eps, in this order, and comes to its end, when
    the top of the y axis, [max(values) + 5], is finite and matplotlib
    can lay out every tick label.  When the top is not finite
    [plt.ylim] raises [ValueError], and when a label cannot be laid out
    [plt.tight_layout] does; the exception ends the run and no file is
    saved. *)
Theorem chart_saved_three_times (py_sum : list float -> float)
        (drawable : string -> bool)
        (fs : filesystem) (p : process) (names : list string)
        (D : string) (v : float) :
  fs (base_dir_of p) = Some (Dir names) ->
  D ∈ names ->
  contributes fs (base_dir_of p) D v ->
  let apps := entities fs (base_dir_of p) names in
  let values := entity_values fs (base_dir_of p) names in
  let heights := values ++ [average_of py_sum values] in
  let labels := (get_full_app_name <$> apps) ++ ["$\mathbf{Average}$"] in
  let top := fadd (max_float heights) (of_nat 5) in
  let run := main py_sum drawable fs p in
  (exists x, Bar x heights width ∈ plots (trace run))
  /\ (is_finite top = true -> forallb drawable labels = true ->
      saved (trace run)
      = ["backend_bound_plot.png"; "backend_bound_plot.pdf";
         "backend_bound_plot.eps"]
      /\ result run = Return tt)
  /\ (is_finite top = false ->
      saved (trace run) = []
      /\ last (plots (trace run)) = Some (Ylim 0 top)
      /\ result run = Raise (ValueError "Axis limits cannot be NaN or Inf"))
  /\ (is_finite top = true -> forallb drawable labels = false ->
      saved (trace run) = []
      /\ last (plots (trace run)) = Some TightLayout
      /\ result run = Raise (ValueError "ParseException")).
Proof.
  intros H Hin Hc apps values heights labels top run.
  assert (aggregated fs (base_dir_of p) names <> ∅) as Hd
    by by eapply aggregated_nonempty.
  pose proof (main_plots py_sum drawable fs p names H Hd) as Hplots.
  pose proof (main_chart py_sum drawable fs p names H Hd) as Hrun.
  cbv zeta in Hrun. fold apps values heights run in Hplots, Hrun.
  change ((get_full_app_name <$> apps) ++ [average_label]) with labels
    in Hplots, Hrun.
  assert (result run = render_result drawable heights labels) as ->
    by by rewrite Hrun.
  unfold saved. rewrite Hplots. unfold made_calls, render_result.
  fold (chart_top heights). change (chart_top heights) with top.
  split; [|split; [|split]].
  - eexists. apply elem_of_app. left. apply limit_calls_Bar.
  - intros -> ->. split; [|done].
    by rewrite omap_app, limit_calls_saved.
  - intros ->. rewrite app_nil_r. split; [apply limit_calls_saved|].
    split; [apply limit_calls_last|done].
  - intros -> ->. rewrite app_nil_r. split; [|split; [|done]].
    + by rewrite omap_app, limit_calls_saved.
    + by rewrite last_app.
Qed.

(** At least one entry yields a value, and no file is saved: the value
    is a one followed by 309 zeros, its float is [+inf], and [plt.ylim]
    refuses the top of the axis. *)
Lemma chart_not_saved :
  demo_fs_huge "results" = Some (Dir ["big"])
  /\ contributes demo_fs_huge "results" "big" (S754_infinity false)
  /\ result (main seq_sum draws_all demo_fs_huge demo_process)
     = Raise (ValueError "Axis limits cannot be NaN or Inf")
  /\ saved (trace (main seq_sum draws_all demo_fs_huge demo_process)) = [].
Proof.
  assert (contributes demo_fs_huge "results" "big" (S754_infinity false))
    as Hc by (repeat split; vm_compute; reflexivity).
  split; [done|]. split; [done|].
  assert ("big" ∈ ["big"]) as Hin by apply list_elem_of_here.
  assert (aggregated demo_fs_huge "results" ["big"] <> ∅) as Hd
    by by eapply aggregated_nonempty.
  pose proof (main_chart seq_sum draws_all demo_fs_huge demo_process
                ["big"] eq_refl Hd) as Hrun.
  pose proof (main_plots seq_sum draws_all demo_fs_huge demo_process
                ["big"] eq_refl Hd) as Hplots.
  cbv zeta in Hrun.
  assert (entity_values demo_fs_huge "results" ["big"]
          = [S754_infinity false]) as Hv.
  { pose proof (entities_values demo_fs_huge "results" ["big"]) as Hall.
    assert (entities demo_fs_huge "results" ["big"] = ["big"]) as He.
    { pose proof (entities_NoDup demo_fs_huge "results" ["big"]) as Hnd.
      pose proof (entities_nonempty demo_fs_huge "results" ["big"] Hd) as Hne.
      destruct (entities demo_fs_huge "results" ["big"]) as [|a l] eqn:E;
        [done|].
      assert (forall x, x ∈ a :: l -> x = "big") as Hall'.
      { intros x Hx. rewrite <- E in Hx.
        apply entities_elem_of in Hx as (? & Hx & _).
        by apply list_elem_of_singleton in Hx. }
      rewrite (Hall' a) in * by by left.
      destruct l as [|b l]; [done|].
      rewrite (Hall' b) in Hnd by (right; by left).
      apply NoDup_cons in Hnd as [Hnd _]. destruct Hnd. by left. }
    rewrite He in Hall.
    apply Forall2_cons_inv_l in Hall as (w & l & [_ Hw] & Hl & ->).
    apply Forall2_nil_inv_l in Hl as ->.
    destruct Hc as (_ & _ & Hc), Hw as (_ & _ & Hw). congruence. }
  assert (render_result draws_all
            (entity_values demo_fs_huge "results" ["big"]
             ++ [average_of seq_sum
                   (entity_values demo_fs_huge "results" ["big"])])
            ((get_full_app_name <$> entities demo_fs_huge "results" ["big"])
             ++ [average_label])
          = Raise (ValueError "Axis limits cannot be NaN or Inf")) as Hres.
  { rewrite Hv. unfold render_result.
    by destruct (average_of seq_sum [S754_infinity false]) as [[]|[]| |[]]. }
  change (base_dir_of demo_process) with "results" in Hrun, Hplots.
  split.
  - by rewrite Hrun.
  - unfold saved. rewrite Hplots. unfold made_calls.
    rewrite Hv.
    assert (is_finite
              (chart_top ([S754_infinity false]
                          ++ [average_of seq_sum [S754_infinity false]]))
            = false) as ->
      by by destruct (average_of seq_sum [S754_infinity false])
           as [[]|[]| |[]].
    rewrite app_nil_r. apply limit_calls_saved.
Qed.

(** C9 (as amended).  When nothing yields a value, no call into
    matplotlib is made and no image file is written.  When the base
    directory does not exist, and when it is a directory that is listed
    without any entry yielding a value, [main] prints an error message
    and exits with status 1.  When the base path is a file, or a
    directory that cannot be listed, the exception of [os.listdir] ends
    the run before [main] has printed anything. *)
Theorem main_exits_without_chart (py_sum : list float -> float)
        (drawable : string -> bool)
        (fs : filesystem) (p : process) :
  (forall D v,
     D ∈ listing fs (base_dir_of p) -> ~ contributes fs (base_dir_of p) D v) ->
  let run := main py_sum drawable fs p in
  plots (trace run) = []
  /\ saved (trace run) = []
  /\ exit_status run = 1%Z
  /\ match fs (base_dir_of p) with
     | None =>
         run = ([Print (MsgDirNotFound (base_dir_of p));
                 Print (MsgUsage (argv0 p))], SysExit 1)
     | Some (Dir names) =>
         result run = SysExit 1
         /\ last (trace run) = Some (Print MsgNoData)
     | Some (File _) => run = ([], Raise (NotADirectoryError (base_dir_of p)))
     | Some (LockedDir e) => run = ([], Raise e)
     end.
Proof.
  intros Hnone run. unfold listing in Hnone. subst run.
  destruct (fs (base_dir_of p)) as [[st|names|e]|] eqn:H.
  - by rewrite (main_not_a_directory py_sum drawable fs p st H).
  - apply aggregated_empty in Hnone.
    rewrite (main_no_data py_sum drawable fs p names H Hnone).
    unfold exit_status, saved. cbn [trace result fst snd].
    rewrite plots_app. unfold scan_events. rewrite bind_events_plots.
    repeat split; try done. by rewrite last_snoc.
  - by rewrite (main_locked py_sum drawable fs p e H).
  - by rewrite (main_missing py_sum drawable fs p H).
Qed.

(** Nothing yields a value, and [main] neither prints a message nor
    calls [sys.exit]: the base path is a regular file, and the
    [NotADirectoryError] of [os.listdir] ends the run. *)
Lemma no_message_on_file :
  (forall D v, ~ contributes demo_fs_file "results" D v)
  /\ main seq_sum draws_all demo_fs_file demo_process
     = ([], Raise (NotADirectoryError "results")).
Proof.
  split; [|reflexivity].
  intros D v [Hdir _]. unfold isdir, demo_fs_file, single_file in Hdir.
  by destruct (String.eqb _ _).
Qed.

(** C2.  When at least one entry yields a value, the bars are the values
    of the entities that yielded one, each entity once, followed by one
    more bar: the sum of these values, added up in order from zero as
    [sum] does, divided by their number.  The same number is printed as
    the average, and the tick of the last bar is labelled Average. *)
Theorem average_is_sum_over_count (drawable : string -> bool)
        (fs : filesystem) (p : process) (names : list string)
        (D : string) (v : float) :
  fs (base_dir_of p) = Some (Dir names) ->
  D ∈ names ->
  contributes fs (base_dir_of p) D v ->
  let apps := entities fs (base_dir_of p) names in
  let values := entity_values fs (base_dir_of p) names in
  let total := fold_left fadd values (S754_zero false) in
  let average_value := fdiv total (of_nat (length values)) in
  let run := main seq_sum drawable fs p in
  Forall2 (fun D v => D ∈ names /\ contributes fs (base_dir_of p) D v)
    apps values
  /\ (forall D v, D ∈ names -> contributes fs (base_dir_of p) D v -> D ∈ apps)
  /\ NoDup apps
  /\ 0 < length values
  /\ Plot (Bar (x_positions (length apps + 1)) (values ++ [average_value])
             width) ∈ trace run
  /\ Print (MsgAverage average_value) ∈ trace run
  /\ Plot (SetXticklabels
             ((get_full_app_name <$> apps) ++ ["$\mathbf{Average}$"]))
     ∈ trace run.
Proof.
  intros H Hin Hc apps values total average_value run.
  assert (aggregated fs (base_dir_of p) names <> ∅) as Hd
    by by eapply aggregated_nonempty.
  pose proof (entities_nonempty fs (base_dir_of p) names Hd) as Hne.
  pose proof (entity_values_length fs (base_dir_of p) names) as Hlen.
  fold apps values in Hne, Hlen.
  split; [apply entities_values|].
  split; [intros D' v' ? ?; apply entities_elem_of; by exists v'|].
  split; [apply entities_NoDup|].
  split; [rewrite Hlen; destruct apps; [done|cbn; lia]|].
  subst run.
  rewrite !elem_of_plots, (main_plots seq_sum drawable fs p names H Hd).
  rewrite (main_chart seq_sum drawable fs p names H Hd). cbn [trace fst].
  fold apps values. unfold average_of, seq_sum. fold total average_value.
  replace (length apps + 1) with (length (apps ++ ["Average"]))
    by (rewrite length_app; done).
  split; [apply made_calls_limit, limit_calls_Bar|].
  split; [|apply made_calls_limit, limit_calls_SetXticklabels].
  apply elem_of_app. right. unfold summary_trace.
  apply elem_of_app. left. apply summary_head_average.
Qed.

(** C6.  On the chart every bar has a tick and every tick a label: the
    bar of an entity is labelled with the display name its directory
    name has in the five-entry name map, and with the directory name
    itself when the map does not have it; the last bar, the average, is
    labelled Average (set in bold by the mathtext markup around it).
    There are as many labels as bars. *)
Theorem every_bar_is_labelled (py_sum : list float -> float)
        (drawable : string -> bool)
        (fs : filesystem) (p : process) (names : list string)
        (D : string) (v : float) :
  fs (base_dir_of p) = Some (Dir names) ->
  D ∈ names ->
  contributes fs (base_dir_of p) D v ->
  let table :=
    [ ("bfs_gnutella31", "breadth first search");
      ("dfs_gnutella31", "depth first search");
      ("pr_gnutella31", "pagerank");
      ("tc_gnutella31", "triangle counting");
      ("sssp_ego_fb", "single source shortest path") ] in
  let apps := entities fs (base_dir_of p) names in
  let values := entity_values fs (base_dir_of p) names in
  let heights := values ++ [average_of py_sum values] in
  let entity_labels := get_full_app_name <$> apps in
  let labels := entity_labels ++ ["$\mathbf{Average}$"] in
  let x := x_positions (length apps + 1) in
  plots (trace (main py_sum drawable fs p))
  = made_calls drawable (apps ++ ["Average"]) heights labels
  /\ Bar x heights width ∈ plots (trace (main py_sum drawable fs p))
  /\ SetXticks x ∈ plots (trace (main py_sum drawable fs p))
  /\ SetXticklabels labels ∈ plots (trace (main py_sum drawable fs p))
  /\ length labels = length heights
  /\ length x = length heights
  /\ Forall2 (fun app label =>
                (app, label) ∈ table \/ (app ∉ table.*1) /\ label = app)
       apps entity_labels
  /\ NoDup table.*1
  /\ labels !! length apps = Some "$\mathbf{Average}$".
Proof.
  intros H Hin Hc table apps values heights entity_labels labels x.
  assert (aggregated fs (base_dir_of p) names <> ∅) as Hd
    by by eapply aggregated_nonempty.
  pose proof (entity_values_length fs (base_dir_of p) names) as Hlen.
  fold apps values in Hlen.
  rewrite (main_plots py_sum drawable fs p names H Hd).
  fold apps values heights.
  change ((get_full_app_name <$> apps) ++ [average_label]) with labels.
  assert (x = x_positions (length (apps ++ ["Average"]))) as Hx
    by (by rewrite length_app).
  split; [done|]. rewrite Hx.
  split; [apply made_calls_limit, limit_calls_Bar|].
  split; [apply made_calls_limit, limit_calls_SetXticks|].
  split; [apply made_calls_limit, limit_calls_SetXticklabels|].
  unfold labels, entity_labels, heights, x_positions.
  rewrite !length_app, !length_fmap, length_seq, Hlen.
  split; [done|]. split; [done|]. split; [|split; [apply name_map_NoDup|]].
  - apply Forall2_fmap_r, Forall_Forall2_diag, Forall_forall.
    intros app _. change table with name_map.
    destruct (decide (app ∈ name_map.*1)) as [Hk|Hk].
    + left. apply list_elem_of_fmap in Hk as ([k full] & -> & Hk).
      cbn [fst]. unfold get_full_app_name.
      by rewrite (dict_get_elem_of name_map k full k name_map_NoDup Hk).
    + right. split; [done|]. unfold get_full_app_name.
      by apply dict_get_default.
  - rewrite lookup_app_r by (by rewrite length_fmap).
    by rewrite length_fmap, Nat.sub_diag.
Qed.

(** C7.  [main] is one pass: for every file system and every way of
    starting the process it ends with a trace and an outcome.  It opens
    the summary file of each entry of the listing that has one, once and
    in sorted order, and the whole trace is at most three events per
    entry of the listing plus the thirty-nine of the summary and the
    chart. *)
Theorem main_single_pass (py_sum : list float -> float)
        (drawable : string -> bool)
        (fs : filesystem) (p : process) :
  exists t o,
    main py_sum drawable fs p = (t, o)
    /\ opens t
       = summary_path (base_dir_of p)
         <$> filter (fun a => has_summary fs (base_dir_of p) a = true)
               (sorted (listing fs (base_dir_of p)))
    /\ length (opens t) <= length (listing fs (base_dir_of p))
    /\ length t <= 3 * length (listing fs (base_dir_of p)) + 39.
Proof.
  set (base_dir := base_dir_of p).
  assert (forall names,
            length (summary_path base_dir
                    <$> filter (fun a => has_summary fs base_dir a = true)
                          (sorted names)) <= length names) as Hopen.
  { intros names. rewrite length_fmap.
    etrans; [apply length_filter|]. by rewrite sorted_length. }
  unfold listing. fold base_dir.
  destruct (fs base_dir) as [[st|names|e]|] eqn:H.
  - rewrite (main_not_a_directory py_sum drawable fs p st H).
    do 2 eexists. split; [done|]. cbn. repeat split; lia.
  - destruct (decide (aggregated fs base_dir names = ∅)) as [Hd|Hd].
    + rewrite (main_no_data py_sum drawable fs p names H Hd).
      do 2 eexists. split; [done|]. fold base_dir. unfold scan_events.
      rewrite opens_app, bind_events_opens, app_nil_r.
      split; [done|]. split; [apply Hopen|].
      rewrite length_app.
      pose proof (bind_events_length fs base_dir (sorted names)) as Hl.
      rewrite sorted_length in Hl. cbn. lia.
    + rewrite (main_chart py_sum drawable fs p names H Hd).
      do 2 eexists. split; [done|]. fold base_dir.
      unfold scan_events, summary_trace, summary_head.
      rewrite !opens_app, bind_events_opens, row_events_opens,
        render_trace_opens, !app_nil_r.
      split; [done|]. split; [apply Hopen|].
      rewrite !length_app.
      pose proof (bind_events_length fs base_dir (sorted names)) as Hl.
      rewrite sorted_length in Hl.
      pose proof (row_events_length (entities fs base_dir names)
                    (entity_values fs base_dir names)) as Hr.
      pose proof (entities_length fs base_dir names) as He.
      pose proof (render_trace_length drawable
                    (entities fs base_dir names ++ ["Average"])
                    (entity_values fs base_dir names
                     ++ [average_of py_sum (entity_values fs base_dir names)])
                    ((get_full_app_name <$> entities fs base_dir names)
                     ++ [average_label])) as Hc.
      cbn [length]. lia.
  - rewrite (main_locked py_sum drawable fs p e H).
    do 2 eexists. split; [done|]. cbn. repeat split; lia.
  - rewrite (main_missing py_sum drawable fs p H).
    do 2 eexists. split; [done|]. cbn. repeat split; lia.
Qed.

(** C10.  Two runs over the same contents, whatever the order in which
    the directories are listed, are the same run: the same trace (so
    the same messages, bars and labels) and the same outcome.  The
    entities are in ascending order of directory name, each once, and
    what is appended for the average comes last. *)
Theorem main_independent_of_listing_order (py_sum : list float -> float)
        (drawable : string -> bool)
        (fs1 fs2 : filesystem) (p : process) :
  same_contents fs1 fs2 ->
  main py_sum drawable fs1 p = main py_sum drawable fs2 p
  /\ forall names,
       fs1 (base_dir_of p) = Some (Dir names) ->
       aggregated fs1 (base_dir_of p) names <> ∅ ->
       let apps := entities fs1 (base_dir_of p) names in
       let values := entity_values fs1 (base_dir_of p) names in
       let heights := values ++ [average_of py_sum values] in
       let labels := (get_full_app_name <$> apps) ++ [average_label] in
       Sorted String.le apps
       /\ NoDup apps
       /\ trace (main py_sum drawable fs1 p)
          = scan_events fs1 (base_dir_of p) names
            ++ summary_trace drawable apps values (average_of py_sum values)
       /\ plots (trace (main py_sum drawable fs1 p))
          = made_calls drawable (apps ++ ["Average"]) heights labels
       /\ Bar (x_positions (length apps + 1)) heights width
          ∈ plots (trace (main py_sum drawable fs1 p))
       /\ SetXticklabels labels ∈ plots (trace (main py_sum drawable fs1 p))
       /\ (is_finite (fadd (max_float heights) (of_nat 5)) = true ->
           forallb drawable labels = true ->
           trace (main py_sum drawable fs1 p)
           = scan_events fs1 (base_dir_of p) names
             ++ summary_events apps values (average_of py_sum values)
           /\ plots (trace (main py_sum drawable fs1 p))
              = chart_calls (apps ++ ["Average"]) heights labels).
Proof.
  intros Hsame. split; [by apply same_main|].
  intros names H Hd apps values heights labels.
  pose proof (main_plots py_sum drawable fs1 p names H Hd) as Hplots.
  fold apps values heights labels in Hplots.
  split; [apply entities_Sorted|]. split; [apply entities_NoDup|].
  split; [by rewrite (main_chart py_sum drawable fs1 p names H Hd)|].
  split; [done|]. rewrite Hplots.
  split.
  { replace (length apps + 1) with (length (apps ++ ["Average"]))
      by (rewrite length_app; done).
    apply made_calls_limit, limit_calls_Bar. }
  split; [apply made_calls_limit, limit_calls_SetXticklabels|].
  intros Hfin Hok.
  split; [by rewrite (main_chart_complete py_sum drawable fs1 p names H Hd)|].
  by apply made_calls_complete.
Qed.

(** C1 (as amended).  On a file that can be read, [extract_backend_bound]
    looks at the leftmost occurrence of the pattern only.  It returns
    the float of the captured group when the group is a literal [float]
    accepts (digits with at most one dot and at least one digit), and
    [None] when the group is not such a literal or when the pattern
    does not occur in the text. *)
Theorem extract_value_of_first_occurrence (fs : filesystem)
        (f text : string) :
  fs f = Some (File (Readable text)) ->
  (forall pre cap v,
     first_occurrence text pre cap -> parse_float cap = Some v ->
     result (extract_backend_bound fs f) = Return (Some v))
  /\ (forall pre cap,
        first_occurrence text pre cap -> valid_literal cap = false ->
        result (extract_backend_bound fs f) = Return None)
  /\ (forall pre cap,
        first_occurrence text pre cap ->
        (is_Some (parse_float cap) <-> valid_literal cap = true))
  /\ (~ occurs text -> result (extract_backend_bound fs f) = Return None).
Proof.
  intros H. rewrite (extract_readable fs f text H). repeat split.
  - intros pre cap v Hfirst Hv.
    by rewrite (search_first_occurrence text pre cap Hfirst); cbn; rewrite Hv.
  - intros pre cap Hfirst Hv%parse_float_None.
    by rewrite (search_first_occurrence text pre cap Hfirst); cbn; rewrite Hv.
  - by intros ?%parse_float_valid.
  - by intros ?%parse_float_valid.
  - intros Hno.
    destruct (Re.search backend_pattern text) as [m|] eqn:Hs; [|done].
    apply search_Some in Hs as (pre & cap & _ & Hocc & _).
    destruct Hno. by exists pre, cap.
Qed.

(** The pattern occurs in a text from which no value comes: the
    captured group is a lone dot, [float] refuses it, and the result is
    [None]. *)
Lemma first_occurrence_without_value :
  first_occurrence "Back-End Bound: .%" "" "."
  /\ extract_backend_bound
       (single_file "summary.txt" "Back-End Bound: .%") "summary.txt"
     = ([Open "summary.txt";
         Print (MsgErrorReading "summary.txt" (ValueError "."))],
        Return None).
Proof.
  split; [|reflexivity]. split.
  - exists " ", "". by repeat split.
  - intros pre' cap' _. cbn. lia.
Qed.

(** C8 (as amended).  A value [extract_backend_bound] returns is the
    float of a captured group made of digits and dots only, with at
    most one dot and at least one digit.  Its sign bit is clear and it
    is not a NaN: it is [+0.0], a positive finite number, or [+inf]
    for a literal beyond the range of binary64.  A captured group that
    [float] refuses ends in the handler, with a message and [None]. *)
Theorem extracted_value_nonneg (fs : filesystem) (f : string) :
  (forall v,
     result (extract_backend_bound fs f) = Return (Some v) ->
     is_nonneg v = true
     /\ exists text pre cap,
          fs f = Some (File (Readable text))
          /\ first_occurrence text pre cap
          /\ cap <> ""
          /\ all_chars is_digit_or_dot cap = true
          /\ valid_literal cap = true
          /\ parse_float cap = Some v)
  /\ (forall text pre cap,
        fs f = Some (File (Readable text)) ->
        first_occurrence text pre cap ->
        parse_float cap = None ->
        extract_backend_bound fs f
        = ([Open f; Print (MsgErrorReading f (ValueError cap))],
           Return None)).
Proof.
  split.
  - intros v (text & pre & cap & H & Hfirst & Hv)%extract_Some.
    split; [by eapply parse_float_nonneg|].
    exists text, pre, cap.
    destruct Hfirst as [Hocc Hleft].
    pose proof Hocc as (ws & post & _ & _ & _ & Hne & Hall).
    repeat split; try done.
    apply parse_float_valid. by rewrite Hv.
  - intros text pre cap H Hfirst Hv.
    rewrite (extract_readable fs f text H).
    by rewrite (search_first_occurrence text pre cap Hfirst); cbn; rewrite Hv.
Qed.

(** A value that is not finite: the captured group is a one followed by
    309 zeros, and its float is [+inf]. *)
Lemma extracted_value_infinite :
  extract_backend_bound
    (single_file "summary.txt" ("Back-End Bound: 1" +:+ zeros 309 +:+ "%"))
    "summary.txt"
  = ([Open "summary.txt"], Return (Some (S754_infinity false)))
  /\ is_finite (S754_infinity false) = false.
Proof. split; [vm_compute|]; reflexivity. Qed.

(** * The claims on a small results directory *)

Lemma demo_contributes :
  contributes demo_fs "results" "tc_gnutella31" (of_decimal 314 1).
Proof. repeat split; vm_compute; reflexivity. Qed.

Lemma demo_listed :
  "tc_gnutella31"
  ∈ ["tc_gnutella31"; "notes.txt"; "locked"; "bfs_gnutella31"; "scratch"].
Proof. apply list_elem_of_here. Qed.

Lemma doc_first_occurrence :
  first_occurrence "Back-End Bound: 31.4% of Pipeline Slots" "" "31.4".
Proof.
  split.
  - exists " ", " of Pipeline Slots". by repeat split.
  - intros pre' cap' _. cbn. lia.
Qed.

Lemma extract_value_of_first_occurrence_witness :
  result
    (extract_backend_bound
       (single_file "summary.txt" "Back-End Bound: 31.4% of Pipeline Slots")
       "summary.txt")
  = Return (Some (of_decimal 314 1)).
Proof.
  apply (proj1 (extract_value_of_first_occurrence
                  (single_file "summary.txt"
                     "Back-End Bound: 31.4% of Pipeline Slots")
                  "summary.txt" _ eq_refl)
           "" "31.4" _ doc_first_occurrence).
  reflexivity.
Defined.

Lemma average_is_sum_over_count_witness :
  Print (MsgAverage
           (fdiv (fadd (fadd (S754_zero false) (of_decimal 50 0))
                    (of_decimal 314 1))
              (of_nat 2)))
  ∈ trace (main seq_sum draws_all demo_fs demo_process).
Proof.
  destruct (average_is_sum_over_count draws_all demo_fs demo_process _
              "tc_gnutella31" _ eq_refl demo_listed demo_contributes)
    as (_ & _ & _ & _ & _ & Havg & _).
  exact Havg.
Defined.

Lemma aggregate_entities_witness :
  exists t d,
    aggregate demo_fs "results" = (t, Return d)
    /\ d !! "tc_gnutella31" = Some (of_decimal 314 1)
    /\ d !! "notes.txt" = None.
Proof.
  destruct (aggregate_entities demo_fs "results" _ eq_refl)
    as (t & d & Hrun & Hlookup & Hnodir & _).
  exists t, d. split; [exact Hrun|]. split.
  - apply Hlookup. split; [exact demo_listed|].
    repeat split; vm_compute; reflexivity.
  - apply Hnodir. reflexivity.
Defined.

Lemma extract_catches_read_errors_witness :
  extract_backend_bound demo_fs "results/locked/locked_topdown_summary.txt"
  = ([Open "results/locked/locked_topdown_summary.txt";
      Print (MsgErrorReading "results/locked/locked_topdown_summary.txt"
               (ReadFailure "Permission denied"))],
     Return None).
Proof.
  apply (proj1 (extract_catches_read_errors demo_fs
                  "results/locked/locked_topdown_summary.txt")).
  reflexivity.
Defined.

Lemma chart_saved_three_times_witness :
  saved (trace (main seq_sum draws_all demo_fs demo_process))
  = ["backend_bound_plot.png"; "backend_bound_plot.pdf";
     "backend_bound_plot.eps"]
  /\ result (main seq_sum draws_all demo_fs demo_process) = Return tt.
Proof.
  destruct (chart_saved_three_times seq_sum draws_all demo_fs demo_process _
              "tc_gnutella31" _ eq_refl demo_listed demo_contributes)
    as (_ & Hsaved & _).
  apply Hsaved; vm_compute; reflexivity.
Defined.

Lemma every_bar_is_labelled_witness :
  SetXticklabels
    ["breadth first search"; "triangle counting"; "$\mathbf{Average}$"]
  ∈ plots (trace (main seq_sum draws_all demo_fs demo_process)).
Proof.
  destruct (every_bar_is_labelled seq_sum draws_all demo_fs demo_process _
              "tc_gnutella31" _ eq_refl demo_listed demo_contributes)
    as (_ & _ & _ & Hlabels & _).
  exact Hlabels.
Defined.

Lemma demo_no_data_none (D : string) (v : float) :
  D ∈ ["notes.txt"; "scratch"] -> ~ contributes demo_fs_no_data "results" D v.
Proof.
  intros HD (Hdir & Hex & _).
  apply elem_of_cons in HD as [->|HD]; [done|].
  apply elem_of_cons in HD as [->|HD]; [done|].
  by apply elem_of_nil in HD.
Qed.

Lemma main_exits_without_chart_witness :
  result (main seq_sum draws_all demo_fs_no_data demo_process) = SysExit 1
  /\ last (trace (main seq_sum draws_all demo_fs_no_data demo_process))
     = Some (Print MsgNoData).
Proof.
  destruct (main_exits_without_chart seq_sum draws_all demo_fs_no_data
              demo_process demo_no_data_none)
    as (_ & _ & _ & Hexit).
  exact Hexit.
Defined.

Lemma extracted_value_nonneg_witness :
  is_nonneg (of_decimal 314 1) = true.
Proof.
  apply (proj1 (extracted_value_nonneg
                  (single_file "summary.txt"
                     "Back-End Bound: 31.4% of Pipeline Slots")
                  "summary.txt") (of_decimal 314 1)).
  reflexivity.
Defined.

Lemma fs_of_list_same (l1 l2 : list (string * entry)) :
  Forall2 (fun a b => a.1 = b.1 /\ same_entry (Some a.2) (Some b.2)) l1 l2 ->
  same_contents (fs_of_list l1) (fs_of_list l2).
Proof.
  induction 1 as [|[q1 e1] [q2 e2] l1 l2 [Hq He] _ IH]; intros path; [done|].
  cbn in *. subst q2. by destruct (String.eqb path q1).
Qed.

Lemma same_entry_refl (e : entry) : same_entry (Some e) (Some e).
Proof. destruct e; cbn; [done|reflexivity|done]. Qed.

Lemma demo_same_contents : same_contents demo_fs demo_fs_relisted.
Proof.
  apply fs_of_list_same. constructor.
  - split; [done|]. cbn.
    apply (bool_decide_unpack _). by vm_compute.
  - unfold demo_tree.
    repeat (constructor; [split; [done|apply same_entry_refl]|]).
    constructor.
Qed.

Lemma main_independent_of_listing_order_witness :
  main seq_sum draws_all demo_fs demo_process
  = main seq_sum draws_all demo_fs_relisted demo_process.
Proof.
  apply (main_independent_of_listing_order seq_sum draws_all demo_fs demo_fs_relisted
           demo_process demo_same_contents).
Defined.

(** * Further properties of the script *)

(** ** The range of binary64 *)
Section Range.

Local Open Scope Z_scope.

Lemma digits2_pos_size (p : positive) : digits2_pos p = Pos.size p.
Proof. induction p as [p IH|p IH|]; cbn; by rewrite ?IH. Qed.

Lemma Zdigits2_log2 (p : positive) :
  Zdigits2 (Zpos p) = Z.log2 (Zpos p) + 1.
Proof.
  cbn [Zdigits2]. rewrite digits2_pos_size.
  destruct p as [p|p|]; cbn [Pos.size Z.log2]; lia.
Qed.

Lemma Zdigits2_nonneg (x : Z) : 0 <= Zdigits2 x.
Proof. by destruct x. Qed.

(** A non-negative number is below two to the number of its digits. *)
Lemma Zdigits2_upper (x : Z) : 0 <= x -> x < 2 ^ Zdigits2 x.
Proof.
  intros Hx. destruct x as [|p|p]; [done| |lia].
  rewrite Zdigits2_log2. pose proof (Z.log2_spec (Zpos p) ltac:(done)). lia.
Qed.

(** A number below [2 ^ k] has at most [k] digits. *)
Lemma Zdigits2_le (x k : Z) : 0 <= x -> 0 <= k -> x < 2 ^ k -> Zdigits2 x <= k.
Proof.
  intros Hx Hk Hlt. destruct x as [|p|p]; [done| |lia].
  rewrite Zdigits2_log2.
  pose proof (Z.log2_spec (Zpos p) ltac:(done)) as [Hlo _].
  destruct (Z_lt_le_dec (Z.log2 (Zpos p)) k) as [|Hge]; [lia|].
  pose proof (Z.pow_le_mono_r 2 k (Z.log2 (Zpos p)) ltac:(done) Hge). lia.
Qed.

Lemma shr_1_half (mrs : shr_record) :
  0 <= shr_m mrs -> shr_m (shr_1 mrs) = shr_m mrs / 2.
Proof.
  destruct mrs as [m r s]. cbn [shr_m]. intros Hm.
  rewrite <- Z.div2_div. by destruct m as [|[p|p|]|p].
Qed.

Lemma iter_shr_1 (p : positive) (mrs : shr_record) :
  0 <= shr_m mrs ->
  shr_m (SpecFloat.iter_pos shr_1 p mrs) = shr_m mrs / 2 ^ Zpos p.
Proof.
  revert mrs. induction p as [p IH|p IH|]; intros mrs Hm; cbn [SpecFloat.iter_pos].
  - assert (0 <= shr_m (shr_1 mrs)) as H1 by by apply shr_1_nonneg.
    assert (0 <= shr_m (SpecFloat.iter_pos shr_1 p (shr_1 mrs))) as H2
      by (apply (iter_pos_invariant (fun x => 0 <= shr_m x));
          [apply shr_1_nonneg|done]).
    rewrite (IH _ H2), (IH _ H1), (shr_1_half _ Hm).
    rewrite !Z.div_div by lia. f_equal.
    replace (Zpos p~1) with (1 + Zpos p + Zpos p) by lia.
    rewrite !Z.pow_add_r, Z.pow_1_r by lia. ring.
  - assert (0 <= shr_m (SpecFloat.iter_pos shr_1 p mrs)) as H2
      by (apply (iter_pos_invariant (fun x => 0 <= shr_m x));
          [apply shr_1_nonneg|done]).
    rewrite (IH _ H2), (IH _ Hm).
    rewrite !Z.div_div by lia. f_equal.
    replace (Zpos p~0) with (Zpos p + Zpos p) by lia.
    rewrite Z.pow_add_r by lia. ring.
  - by rewrite shr_1_half.
Qed.

(** [shr_fexp] moves to the exponent [fexp] asks for, when that is above
    the exponent it is given, and divides the mantissa accordingly. *)
Lemma shr_fexp_spec (m e : Z) (l : location) :
  0 <= m ->
  let e1 := Z.max e (fexp prec emax (Zdigits2 m + e)) in
  (shr_fexp prec emax m e l).2 = e1
  /\ shr_m (shr_fexp prec emax m e l).1 = m / 2 ^ (e1 - e).
Proof.
  intros Hm e1. unfold shr_fexp, shr. subst e1.
  set (f := fexp prec emax (Zdigits2 m + e)).
  assert (shr_m (shr_record_of_loc m l) = m) as Hrec by by destruct l as [|[]].
  destruct (f - e) as [|p|p] eqn:Hn; cbn [fst snd].
  - replace (Z.max e f) with e by lia.
    by rewrite Hrec, Z.sub_diag, Z.div_1_r.
  - replace (Z.max e f) with (e + Zpos p) by lia. split; [done|].
    rewrite iter_shr_1 by (by rewrite Hrec).
    rewrite Hrec. do 2 f_equal. lia.
  - replace (Z.max e f) with e by lia.
    by rewrite Hrec, Z.sub_diag, Z.div_1_r.
Qed.

Lemma fexp_ge (k : Z) : k - prec <= fexp prec emax k.
Proof. unfold fexp. lia. Qed.

Lemma fexp_le (k : Z) : k <= emax -> fexp prec emax k <= emax - prec.
Proof. unfold fexp, emin, prec, emax. lia. Qed.

(** After [shr_fexp] the mantissa fits in [prec] bits. *)
Lemma shr_fexp_mantissa (m e : Z) (l : location) :
  0 <= m -> shr_m (shr_fexp prec emax m e l).1 < 2 ^ prec.
Proof.
  intros Hm. destruct (shr_fexp_spec m e l Hm) as [_ ->].
  set (e1 := Z.max e (fexp prec emax (Zdigits2 m + e))).
  pose proof (fexp_ge (Zdigits2 m + e)) as Hf.
  pose proof (Zdigits2_upper m Hm) as Hup.
  pose proof (Zdigits2_nonneg m) as Hd.
  assert (0 <= e1 - e) as Hs by lia.
  apply Z.div_lt_upper_bound; [by apply Z.pow_pos_nonneg|].
  rewrite <- Z.pow_add_r by (unfold prec; lia).
  eapply Z.lt_le_trans; [exact Hup|].
  apply Z.pow_le_mono_r; [done|]. lia.
Qed.

Lemma round_nearest_even_le (m : Z) (l : location) :
  round_nearest_even m l <= m + 1.
Proof.
  unfold round_nearest_even.
  destruct l as [|[]]; [lia| |lia|lia]. destruct (Z.even m); lia.
Qed.

(** Rounding stays finite when the exponent [fexp] asks for is in range
    and, at the largest exponent, the mantissa cannot round up to a
    power of two. *)
Lemma binary_round_aux_finite (m e : Z) (l : location) :
  0 <= m ->
  let e1 := Z.max e (fexp prec emax (Zdigits2 m + e)) in
  e1 <= emax - prec ->
  (e1 = emax - prec -> m / 2 ^ (e1 - e) + 1 < 2 ^ prec) ->
  is_finite (binary_round_aux prec emax false m e l) = true.
Proof.
  intros Hm e1 He1 Htop. unfold binary_round_aux.
  destruct (shr_fexp_spec m e l Hm) as [Hexp Hman].
  pose proof (shr_fexp_mantissa m e l Hm) as Hbits.
  pose proof (shr_fexp_nonneg m e l Hm) as Hpos.
  fold e1 in Hexp, Hman.
  destruct (shr_fexp prec emax m e l) as [mrs' e']. cbn [fst snd] in *.
  subst e'.
  set (m2 := round_nearest_even (shr_m mrs') (loc_of_shr_record mrs')).
  assert (0 <= m2) as Hm2 by by apply round_nearest_even_nonneg.
  assert (m2 <= shr_m mrs' + 1) as Hm2' by apply round_nearest_even_le.
  destruct (shr_fexp_spec m2 e1 loc_Exact Hm2) as [Hexp2 _].
  pose proof (shr_fexp_nonneg m2 e1 loc_Exact Hm2) as Hpos2.
  destruct (shr_fexp prec emax m2 e1 loc_Exact) as [mrs'' e''].
  cbn [fst snd] in *.
  destruct (shr_m mrs'') as [|p|p]; [done| |lia].
  assert (e'' <= emax - prec) as Hfin; [|by apply Z.leb_le in Hfin as ->].
  subst e''. apply Z.max_lub; [done|]. apply fexp_le.
  assert (Zdigits2 m2 <= emax - e1) as Hd; [|lia].
  apply Zdigits2_le; [done|unfold emax, prec in *; lia|].
  destruct (decide (e1 = emax - prec)) as [Heq|Hne].
  - specialize (Htop Heq). rewrite <- Hman in Htop.
    replace (emax - e1) with prec by lia. lia.
  - assert (2 ^ prec < 2 ^ (emax - e1)) as Hp
      by (apply Z.pow_lt_mono_r; unfold prec, emax in *; lia).
    lia.
Qed.

(** The quotient of two positive integers is finite when the dividend
    is below the largest binary64 number. *)
Lemma fdiv_finite (m q : positive) :
  Zpos m < (2 ^ prec - 1) * 2 ^ (emax - prec) ->
  is_finite (fdiv (S754_finite false m 0) (S754_finite false q 0)) = true.
Proof.
  intros Hlt. unfold fdiv, SFdiv, SFdiv_core_binary.
  rewrite !Z.add_0_r, !Z.sub_0_r.
  set (e' := Z.min (fexp prec emax (Zdigits2 (Zpos m) - Zdigits2 (Zpos q))) 0).
  assert (e' <= 0) as He' by (subst e'; lia).
  set (m' := match 0 - e' with
             | 0 => Zpos m
             | Zpos _ => Z.shiftl (Zpos m) (0 - e')
             | Zneg _ => 0
             end).
  assert (m' = Zpos m * 2 ^ (- e')) as Hm'.
  { subst m'. destruct (0 - e') as [|s|s] eqn:Hs; [|
      rewrite Z.shiftl_mul_pow2 by lia; do 2 f_equal; lia|lia].
    replace (- e') with 0 by lia. lia. }
  assert (0 < 2 ^ (- e')) as Hpow by (apply Z.pow_pos_nonneg; lia).
  pose proof (Z.div_eucl_eq m' (Zpos q) ltac:(done)) as Heq.
  pose proof (Z.mod_pos_bound m' (Zpos q) ltac:(done)) as Hmod.
  unfold Z.modulo in Hmod.
  destruct (Z.div_eucl m' (Zpos q)) as [q0 r] eqn:Hdiv. cbn [xorb].
  assert (0 <= q0) as Hq0 by nia.
  assert (q0 <= Zpos m * 2 ^ (- e')) as Hq0' by nia.
  assert (2 ^ emax = 2 ^ prec * 2 ^ (emax - prec)) as Hemax
    by (rewrite <- Z.pow_add_r by (unfold prec, emax; lia); f_equal; lia).
  assert (0 < 2 ^ (emax - prec)) as Hpow'
    by (apply Z.pow_pos_nonneg; unfold prec, emax; lia).
  assert (Zdigits2 q0 + e' <= emax) as Hdig.
  { assert (Zdigits2 q0 <= emax - e') as Hd; [|lia].
    apply Zdigits2_le; [done|unfold emax; lia|].
    replace (emax - e') with (emax + - e') by lia.
    rewrite Z.pow_add_r by (unfold emax; lia). nia. }
  apply binary_round_aux_finite; [done| |].
  - apply Z.max_lub; [unfold prec, emax; lia|by apply fexp_le].
  - intros Htop. rewrite Htop.
    replace (emax - prec - e') with (emax - prec + - e') by lia.
    rewrite Z.pow_add_r by (unfold prec, emax; lia).
    assert (q0 / (2 ^ (emax - prec) * 2 ^ (- e')) < 2 ^ prec - 1); [|lia].
    apply Z.div_lt_upper_bound; [nia|]. nia.
Qed.

Lemma of_decimal_finite (m : N) (k : nat) :
  Z.of_N m < (2 ^ prec - 1) * 2 ^ (emax - prec) ->
  is_finite (of_decimal m k) = true.
Proof. destruct m as [|p]; [done|]. apply fdiv_finite. Qed.

Lemma digit_value c : is_digit c = true -> (code c - 48 <= 9)%N.
Proof. by destruct c as [[] [] [] [] [] [] [] []]. Qed.

(** The number [read_digits] reads has as many decimal digits as it
    read, on top of the number it started from. *)
Lemma read_digits_bound (s : string) (acc : N) :
  let '(v, n, r) := read_digits s acc in
  (v < (acc + 1) * 10 ^ N.of_nat n)%N
  /\ (n + String.length r = String.length s)%nat.
Proof.
  revert acc. induction s as [|c s IH]; intros acc;
    cbn [read_digits String.length]; [split; lia|].
  destruct (is_digit c) eqn:Hc; [|cbn [String.length]; split; lia].
  specialize (IH (10 * acc + (code c - 48))%N).
  destruct (read_digits s (10 * acc + (code c - 48))%N) as [[v n] r].
  destruct IH as [Hv Hn]. split; [|lia].
  pose proof (digit_value c Hc) as Hd.
  rewrite Nat2N.inj_succ, N.pow_succ_r'.
  eapply N.lt_le_trans; [exact Hv|]. nia.
Qed.

(** A literal of at most 308 characters is below [10 ^ 308], which is
    in the range of binary64: its float is finite. *)
Lemma parse_float_finite (s : string) (v : float) :
  parse_float s = Some v -> (String.length s <= 308)%nat ->
  is_finite v = true.
Proof.
  unfold parse_float. intros Hv Hlen.
  assert (forall m n k, (m < 10 ^ N.of_nat n)%N -> (n <= 308)%nat ->
                        is_finite (of_decimal m k) = true) as Hfin.
  { intros m n k Hm Hn. apply of_decimal_finite.
    assert (Z.of_N m < 10 ^ 308) as Hm'.
    { apply N2Z.inj_lt in Hm. rewrite N2Z.inj_pow in Hm. cbn in Hm.
      eapply Z.lt_le_trans; [exact Hm|].
      apply Z.pow_le_mono_r; lia. }
    eapply Z.lt_trans; [exact Hm'|]. by vm_compute. }
  pose proof (read_digits_bound s 0%N) as H1.
  destruct (read_digits s 0%N) as [[i ni] r]. destruct H1 as [Hi Hni].
  destruct r as [|c r'].
  - destruct (Nat.eqb ni 0); [done|]. injection Hv as <-.
    apply (Hfin i ni 0%nat); [lia|lia].
  - destruct (Ascii.eqb c "."); [|done].
    pose proof (read_digits_bound r' i) as H2.
    destruct (read_digits r' i) as [[m nf] r'']. destruct H2 as [Hm Hnf].
    destruct r''; [|done]. destruct (Nat.eqb (ni + nf) 0); [done|].
    injection Hv as <-. cbn [String.length] in *.
    apply (Hfin m (ni + nf)%nat nf); [|lia].
    rewrite Nat2N.inj_add, N.pow_add_r.
    eapply N.lt_le_trans; [exact Hm|]. nia.
Qed.

End Range.

(** X1.  [re.search] with the pattern of the script returns a match
    exactly when the text has an occurrence: the literal, a non-empty
    run of white space, a non-empty run of digits and dots, a percent
    sign.  Group 1 of the match is the run of digits and dots of the
    leftmost occurrence. *)
Theorem search_leftmost_occurrence (text : string) :
  match Re.search backend_pattern text with
  | Some m =>
      exists pre cap,
        m = Re.MatchObj (Some cap) /\ first_occurrence text pre cap
  | None => ~ occurs text
  end.
Proof.
  destruct (Re.search backend_pattern text) as [m|] eqn:Hs.
  - by apply search_Some.
  - by apply search_None.
Qed.

(** X2.  A value that comes from a captured group of at most 308
    characters is finite: such a literal is below [10 ^ 308], inside the
    range of binary64. *)
Theorem extracted_value_finite (fs : filesystem) (f text pre cap : string)
        (v : float) :
  fs f = Some (File (Readable text)) ->
  first_occurrence text pre cap ->
  String.length cap <= 308 ->
  result (extract_backend_bound fs f) = Return (Some v) ->
  is_finite v = true.
Proof.
  intros H Hfirst Hlen. rewrite (extract_readable fs f text H).
  rewrite (search_first_occurrence text pre cap Hfirst). cbn.
  destruct (parse_float cap) as [v'|] eqn:Hv; [|done].
  intros [= <-]. by eapply parse_float_finite.
Qed.

Lemma extracted_value_finite_witness :
  is_finite (of_decimal 314 1) = true.
Proof.
  apply (extracted_value_finite
           (single_file "summary.txt" "Back-End Bound: 31.4% of Pipeline Slots")
           "summary.txt" _ "" "31.4" _ eq_refl doc_first_occurrence).
  - cbn. lia.
  - reflexivity.
Defined.

(** X3.  However [main] ends, it is in one of five ways.  It comes to
    its end, with the three files saved, when some entry of the listing
    yields a value, the top of the y axis is finite and every label can
    be laid out.  It exits with status 1, without a call into
    matplotlib, when the base directory does not exist or nothing yields
    a value.  It ends with the exception of [os.listdir], having
    printed nothing, when the base path is a file or a directory that
    cannot be listed.  It ends with the [ValueError] of [plt.ylim] when
    the top of the axis is not finite, and with the [ValueError] of
    [plt.tight_layout] when a label cannot be laid out; no file is saved
    then.  The lookups [apps_data[app]] and [values[i]], the division by
    [len(values)] and [max(values)] never raise. *)
Theorem main_outcomes (py_sum : list float -> float)
        (drawable : string -> bool) (fs : filesystem) (p : process) :
  let run := main py_sum drawable fs p in
  (result run = Return tt
   /\ saved (trace run)
      = ["backend_bound_plot.png"; "backend_bound_plot.pdf";
         "backend_bound_plot.eps"]
   /\ exists names D v,
        fs (base_dir_of p) = Some (Dir names)
        /\ D ∈ names /\ contributes fs (base_dir_of p) D v)
  \/ (result run = SysExit 1
      /\ plots (trace run) = []
      /\ (fs (base_dir_of p) = None
          \/ exists names,
               fs (base_dir_of p) = Some (Dir names)
               /\ forall D v,
                    D ∈ names -> ~ contributes fs (base_dir_of p) D v))
  \/ (exists e,
        run = ([], Raise e)
        /\ (fs (base_dir_of p) = Some (LockedDir e)
            \/ e = NotADirectoryError (base_dir_of p)
               /\ exists st, fs (base_dir_of p) = Some (File st)))
  \/ (exists names top,
        fs (base_dir_of p) = Some (Dir names)
        /\ result run = Raise (ValueError "Axis limits cannot be NaN or Inf")
        /\ last (plots (trace run)) = Some (Ylim 0 top)
        /\ is_finite top = false
        /\ saved (trace run) = [])
  \/ (exists names label,
        fs (base_dir_of p) = Some (Dir names)
        /\ result run = Raise (ValueError "ParseException")
        /\ last (plots (trace run)) = Some TightLayout
        /\ label ∈ (get_full_app_name <$> entities fs (base_dir_of p) names)
                   ++ ["$\mathbf{Average}$"]
        /\ drawable label = false
        /\ saved (trace run) = []).
Proof.
  intros run. subst run.
  destruct (fs (base_dir_of p)) as [[st|names|e]|] eqn:H.
  - right. right. left. eexists.
    split; [by apply (main_not_a_directory _ _ _ _ st)|].
    right. split; [done|]. by exists st.
  - destruct (decide (aggregated fs (base_dir_of p) names = ∅)) as [Hd|Hd].
    + right. left. rewrite (main_no_data py_sum drawable fs p names H Hd).
      cbn [trace result fst snd]. unfold scan_events.
      rewrite plots_app, bind_events_plots.
      split; [done|]. split; [done|]. right. exists names.
      split; [done|]. by apply aggregated_empty.
    + pose proof (main_plots py_sum drawable fs p names H Hd) as Hplots.
      pose proof (main_chart py_sum drawable fs p names H Hd) as Hrun.
      cbv zeta in Hrun.
      set (apps := entities fs (base_dir_of p) names) in *.
      set (values := entity_values fs (base_dir_of p) names) in *.
      set (heights := values ++ [average_of py_sum values]) in *.
      set (labels := (get_full_app_name <$> apps) ++ [average_label]) in *.
      assert (result (main py_sum drawable fs p)
              = render_result drawable heights labels) as Hres
        by by rewrite Hrun.
      unfold saved. rewrite Hplots, Hres. unfold made_calls, render_result.
      destruct (is_finite (chart_top heights)) eqn:Hfin;
        [destruct (forallb drawable labels) eqn:Hok|].
      * left. split; [done|]. split.
        -- by rewrite omap_app, limit_calls_saved.
        -- apply map_choose in Hd as (D & v & Hl).
           apply aggregated_lookup in Hl as [Hin Hc]. by exists names, D, v.
      * right. right. right. right.
        assert (exists label, label ∈ labels /\ drawable label = false)
          as (label & Hin & Hno).
          by by apply forallb_false.
        exists names, label. rewrite app_nil_r.
        split; [done|]. split; [done|].
        split; [by rewrite last_app|]. split; [done|]. split; [done|].
        by rewrite omap_app, limit_calls_saved.
      * right. right. right. left. exists names, (chart_top heights).
        rewrite app_nil_r. split; [done|]. split; [done|].
        split; [apply limit_calls_last|]. split; [done|].
        apply limit_calls_saved.
  - right. right. left. exists e.
    split; [by apply main_locked|]. by left.
  - right. left. rewrite (main_missing py_sum drawable fs p H).
    split; [done|]. split; [done|]. by left.
Qed.

(** X4.  A chart has at least two bars, one entity and the average, so
    the test [len(apps) > 1] never fails: the separator is always
    drawn, at [(len(apps) - 1.5) * bar_spacing], between the last entity
    and the average. *)
Theorem separator_always_drawn (py_sum : list float -> float)
        (drawable : string -> bool)
        (fs : filesystem) (p : process) (names : list string)
        (D : string) (v : float) :
  fs (base_dir_of p) = Some (Dir names) ->
  D ∈ names ->
  contributes fs (base_dir_of p) D v ->
  let bars := length (entities fs (base_dir_of p) names) + 1 in
  2 <= bars
  /\ Axvline (separator_position bars) ∈ plots (trace (main py_sum drawable fs p)).
Proof.
  intros H Hin Hc bars.
  assert (aggregated fs (base_dir_of p) names <> ∅) as Hd
    by by eapply aggregated_nonempty.
  pose proof (entities_nonempty fs (base_dir_of p) names Hd) as Hne.
  assert (2 <= bars) as Hbars
    by (subst bars; destruct (entities fs (base_dir_of p) names);
        [done|cbn; lia]).
  split; [done|].
  rewrite (main_plots py_sum drawable fs p names H Hd).
  apply made_calls_limit. unfold limit_calls.
  rewrite length_app. cbn [length]. fold bars.
  rewrite decide_True by lia.
  apply elem_of_app. right. apply elem_of_app. left. apply list_elem_of_here.
Qed.

Lemma separator_always_drawn_witness :
  exists x, Axvline x ∈ plots (trace (main seq_sum draws_all demo_fs demo_process)).
Proof.
  eexists.
  apply (separator_always_drawn seq_sum draws_all demo_fs demo_process _
           "tc_gnutella31" _ eq_refl demo_listed demo_contributes).
Defined.

(** X5.  Every file is read before the first call into matplotlib: the
    trace of [main] splits into a part without plot calls and a part
    without [open]. *)
Theorem reads_precede_plots (py_sum : list float -> float)
        (drawable : string -> bool)
        (fs : filesystem) (p : process) :
  exists t1 t2,
    trace (main py_sum drawable fs p) = t1 ++ t2
    /\ plots t1 = []
    /\ opens t2 = [].
Proof.
  destruct (fs (base_dir_of p)) as [[st|names|e]|] eqn:H.
  - rewrite (main_not_a_directory py_sum drawable fs p st H). by exists [], [].
  - destruct (decide (aggregated fs (base_dir_of p) names = ∅)) as [Hd|Hd].
    + rewrite (main_no_data py_sum drawable fs p names H Hd).
      exists (scan_events fs (base_dir_of p) names), [Print MsgNoData].
      split; [done|]. split; [apply bind_events_plots|done].
    + rewrite (main_chart py_sum drawable fs p names H Hd).
      do 2 eexists. split; [done|]. split; [apply bind_events_plots|].
      unfold summary_trace.
      by rewrite opens_app, summary_head_opens, render_trace_opens.
  - rewrite (main_locked py_sum drawable fs p e H). by exists [], [].
  - rewrite (main_missing py_sum drawable fs p H). by eexists [], _.
Qed.

(** X6.  [extract_backend_bound] prints only from its handler: a file
    that can be read and does not have the pattern is passed over
    without a message, and so is a file that gives a value.  A message
    is printed exactly when reading fails or [float] refuses the
    captured group. *)
Theorem extract_prints_only_errors (fs : filesystem) (f : string) :
  prints (trace (extract_backend_bound fs f)) <> []
  <-> (exists e, read_error fs f = Some e)
      \/ (exists text pre cap,
            fs f = Some (File (Readable text))
            /\ first_occurrence text pre cap
            /\ valid_literal cap = false).
Proof.
  destruct (read_error fs f) as [e|] eqn:He.
  - rewrite (extract_unreadable fs f e He). split; [|done].
    intros _. left. by exists e.
  - apply read_error_None in He as [text Htext].
    rewrite (extract_readable fs f text Htext).
    destruct (Re.search backend_pattern text) as [m|] eqn:Hs.
    + apply search_Some in Hs as (pre & cap & -> & Hfirst). cbn.
      destruct (parse_float cap) as [v|] eqn:Hv.
      * split; [done|]. intros [[e [=]]|(text' & pre' & cap' & Ht & Hf & Hc)].
        rewrite Htext in Ht. injection Ht as <-.
        assert (cap' = cap) as ->.
        { destruct Hfirst as [Ho Hl], Hf as [Ho' Hl'].
          eapply occurs_at_functional; eauto.
          apply Hl in Ho'. apply Hl' in Ho. lia. }
        apply parse_float_None in Hc. congruence.
      * split; [|done]. intros _. right. exists text, pre, cap.
        by rewrite <- parse_float_None.
    + apply search_None in Hs. split; [done|].
      intros [[e [=]]|(text' & pre' & cap' & Ht & [Ho _] & _)].
      rewrite Htext in Ht. injection Ht as <-. destruct Hs. by exists pre', cap'.
Qed.

(** X7.  For a base directory named by a non-empty path and an entry
    whose name is not empty and has no slash (as the names of a listing
    are), the summary file the script looks for is
    [base_dir/D/D_topdown_summary.txt], without a second slash when
    [base_dir] already ends with one. *)
Theorem summary_path_shape (base_dir D : string) :
  base_dir <> "" -> D <> "" -> no_slash D = true ->
  summary_path base_dir D
  = (if endswith_slash base_dir then base_dir else base_dir +:+ "/")
    +:+ D +:+ "/" +:+ D +:+ "_topdown_summary.txt".
Proof. apply summary_path_joined. Qed.

Lemma summary_path_shape_witness :
  summary_path "results" "tc_gnutella31"
  = "results/tc_gnutella31/tc_gnutella31_topdown_summary.txt".
Proof. by apply (summary_path_shape "results" "tc_gnutella31"). Defined.

(** ** What the script looks at *)
Section Frame.

Variables fs1 fs2 : filesystem.
Variable base_dir : string.

Lemma extract_ext (f : string) :
  fs1 f = fs2 f -> extract_backend_bound fs1 f = extract_backend_bound fs2 f.
Proof.
  intros H. unfold extract_backend_bound, open_read. by rewrite H.
Qed.

Lemma agree_yield (D : string) :
  isdir fs1 (path_join base_dir D) = isdir fs2 (path_join base_dir D) ->
  (isdir fs1 (path_join base_dir D) = true ->
   fs1 (summary_path base_dir D) = fs2 (summary_path base_dir D)) ->
  yield fs1 base_dir D = yield fs2 base_dir D
  /\ visit_events fs1 base_dir D = visit_events fs2 base_dir D.
Proof.
  intros Hdir Hsum. unfold visit_events, yield. rewrite <- Hdir.
  destruct (isdir fs1 (path_join base_dir D)); [|done].
  specialize (Hsum eq_refl). unfold path_exists.
  by rewrite (extract_ext _ Hsum), Hsum.
Qed.

Lemma agree_scan (l : list string) (d : gmap string float) :
  (forall D, D ∈ l ->
     isdir fs1 (path_join base_dir D) = isdir fs2 (path_join base_dir D)
     /\ (isdir fs1 (path_join base_dir D) = true ->
         fs1 (summary_path base_dir D) = fs2 (summary_path base_dir D))) ->
  l ≫= visit_events fs1 base_dir = l ≫= visit_events fs2 base_dir
  /\ foldl (visit fs1 base_dir) d l = foldl (visit fs2 base_dir) d l.
Proof.
  revert d. induction l as [|a l IH]; intros d H; [done|].
  destruct (H a) as [Hdir Hsum]; [by left|].
  destruct (agree_yield a Hdir Hsum) as [Hy Hv].
  destruct (IH (visit fs2 base_dir d a)) as [IH1 IH2];
    [intros D HD; apply H; by right|].
  cbn [foldl mbind list_bind]. split.
  - change (visit_events fs1 base_dir a ++ l ≫= visit_events fs1 base_dir
            = visit_events fs2 base_dir a ++ l ≫= visit_events fs2 base_dir).
    by rewrite Hv, IH1.
  - assert (visit fs1 base_dir d a = visit fs2 base_dir d a) as ->
      by (unfold visit; by rewrite Hy).
    done.
Qed.

End Frame.

(** X8.  [main] looks at nothing but the base directory, the kind of
    each of its entries and the summary file of each entry that is a
    directory: two file systems that agree on these give the same run,
    whatever else they hold. *)
Theorem main_reads_only_summaries (py_sum : list float -> float)
        (drawable : string -> bool)
        (fs1 fs2 : filesystem) (p : process) :
  agree_on_summaries fs1 fs2 (base_dir_of p) ->
  main py_sum drawable fs1 p = main py_sum drawable fs2 p.
Proof.
  intros [Hbase Hentries]. unfold listing in Hentries.
  destruct (fs1 (base_dir_of p)) as [[st|names|e]|] eqn:H1; symmetry in Hbase.
  - by rewrite (main_not_a_directory py_sum drawable fs1 p st H1),
      (main_not_a_directory py_sum drawable fs2 p st Hbase).
  - destruct (agree_scan fs1 fs2 (base_dir_of p) (sorted names) ∅)
      as [Hev Hagg].
    { intros D HD. apply Hentries. by apply sorted_elem_of. }
    fold (scan_events fs1 (base_dir_of p) names) in Hev.
    fold (scan_events fs2 (base_dir_of p) names) in Hev.
    fold (aggregated fs1 (base_dir_of p) names) in Hagg.
    fold (aggregated fs2 (base_dir_of p) names) in Hagg.
    destruct (decide (aggregated fs1 (base_dir_of p) names = ∅)) as [Hd|Hd].
    + rewrite (main_no_data py_sum drawable fs1 p names H1 Hd).
      rewrite Hagg in Hd.
      by rewrite (main_no_data py_sum drawable fs2 p names Hbase Hd), Hev.
    + rewrite (main_chart py_sum drawable fs1 p names H1 Hd).
      pose proof Hd as Hd'. rewrite Hagg in Hd'.
      rewrite (main_chart py_sum drawable fs2 p names Hbase Hd').
      cbv zeta. unfold entity_values, entities. by rewrite Hev, Hagg.
  - by rewrite (main_locked py_sum drawable fs1 p e H1),
      (main_locked py_sum drawable fs2 p e Hbase).
  - by rewrite (main_missing py_sum drawable fs1 p H1),
      (main_missing py_sum drawable fs2 p Hbase).
Qed.

Lemma demo_agree : agree_on_summaries demo_fs demo_fs_more "results".
Proof.
  split; [reflexivity|]. intros D HD. cbn in HD.
  repeat (apply elem_of_cons in HD as [->|HD]; [by split|]).
  by apply elem_of_nil in HD.
Qed.

Lemma main_reads_only_summaries_witness :
  main seq_sum draws_all demo_fs demo_process = main seq_sum draws_all demo_fs_more demo_process.
Proof.
  apply (main_reads_only_summaries seq_sum draws_all demo_fs demo_fs_more demo_process
           demo_agree).
Defined.

(** ** The lines printed for the entities *)
Section Found.

Variable fs : filesystem.
Variable base_dir : string.

Lemma found_lines_app (t1 t2 : list event) :
  found_lines (t1 ++ t2) = found_lines t1 ++ found_lines t2.
Proof. apply omap_app. Qed.

Lemma summary_rows_app (t1 t2 : list event) :
  summary_rows (t1 ++ t2) = summary_rows t1 ++ summary_rows t2.
Proof. apply omap_app. Qed.

Lemma extract_found_lines (f : string) :
  found_lines (trace (extract_backend_bound fs f)) = []
  /\ summary_rows (trace (extract_backend_bound fs f)) = [].
Proof. by destruct (extract_trace fs f) as [->|[e ->]]. Qed.

Lemma visit_events_found (D : string) :
  found_lines (visit_events fs base_dir D)
  = option_list ((fun v => (D, v)) <$> yield fs base_dir D)
  /\ summary_rows (visit_events fs base_dir D) = [].
Proof.
  unfold visit_events, yield.
  destruct (_ && _); [|done].
  rewrite found_lines_app, summary_rows_app.
  destruct (extract_found_lines (summary_path base_dir D)) as [-> ->].
  by destruct (result _) as [[v|]| |].
Qed.

Lemma bind_events_found (l : list string) :
  found_lines (l ≫= visit_events fs base_dir) = yielding fs base_dir l
  /\ summary_rows (l ≫= visit_events fs base_dir) = [].
Proof.
  induction l as [|D l [IH1 IH2]]; [done|].
  cbn [mbind list_bind].
  change (found_lines (visit_events fs base_dir D
                       ++ l ≫= visit_events fs base_dir)
          = yielding fs base_dir (D :: l)
          /\ summary_rows (visit_events fs base_dir D
                          ++ l ≫= visit_events fs base_dir) = []).
  rewrite found_lines_app, summary_rows_app, IH1, IH2.
  destruct (visit_events_found D) as [-> ->].
  unfold yielding. cbn [omap list_omap].
  by destruct (yield fs base_dir D).
Qed.

Lemma row_events_rows (apps : list string) (vs : list float) :
  summary_rows (row_events apps vs) = zip (get_full_app_name <$> apps) vs
  /\ found_lines (row_events apps vs) = [].
Proof.
  revert vs. induction apps as [|a apps IH]; intros [|v vs]; try done.
  destruct (IH vs) as [IH1 IH2]. cbn. by rewrite <- IH1.
Qed.

Lemma Plot_rows (l : list plot_call) :
  summary_rows (Plot <$> l) = [] /\ found_lines (Plot <$> l) = [].
Proof. by induction l. Qed.

Lemma render_trace_rows (drawable : string -> bool) (apps : list string)
      (values : list float) (labels : list string) :
  summary_rows (render_trace drawable apps values labels) = []
  /\ found_lines (render_trace drawable apps values labels) = [].
Proof.
  unfold render_trace, limit_events, layout_events.
  rewrite summary_rows_app, found_lines_app.
  destruct (Plot_rows (limit_calls apps values labels)) as [-> ->].
  destruct (is_finite _); [|done].
  rewrite summary_rows_app, found_lines_app.
  destruct (Plot_rows layout_calls) as [-> ->].
  by destruct (forallb _ _).
Qed.

Lemma summary_trace_rows (drawable : string -> bool) (apps : list string)
      (vs : list float) (avg : float) :
  summary_rows (summary_trace drawable apps vs avg)
  = zip (get_full_app_name <$> apps) vs
  /\ found_lines (summary_trace drawable apps vs avg) = [].
Proof.
  unfold summary_trace, summary_head.
  rewrite !summary_rows_app, !found_lines_app.
  destruct (row_events_rows apps vs) as [-> ->].
  destruct (render_trace_rows drawable (apps ++ ["Average"]) (vs ++ [avg])
              ((get_full_app_name <$> apps) ++ [average_label])) as [-> ->].
  cbn. by rewrite !app_nil_r.
Qed.

Lemma yielding_elem_of (l : list string) (D : string) (v : float) :
  (D, v) ∈ yielding fs base_dir l <-> D ∈ l /\ yield fs base_dir D = Some v.
Proof.
  unfold yielding. rewrite list_elem_of_omap. split.
  - intros (D' & Hin & Heq).
    destruct (yield fs base_dir D') as [v'|] eqn:Hy; [|done].
    by injection Heq as -> ->.
  - intros [Hin Hy]. exists D. by rewrite Hy.
Qed.

Lemma yielding_fst_elem_of (l : list string) (D : string) :
  D ∈ (yielding fs base_dir l).*1
  <-> D ∈ l /\ is_Some (yield fs base_dir D).
Proof.
  rewrite list_elem_of_fmap. split.
  - intros ([D' v] & -> & Hin). apply yielding_elem_of in Hin as [? ?].
    by split; [|exists v].
  - intros [Hin [v Hv]]. exists (D, v). split; [done|].
    by apply yielding_elem_of.
Qed.

Lemma yielding_cons (D : string) (l : list string) :
  yielding fs base_dir (D :: l)
  = option_list ((fun v => (D, v)) <$> yield fs base_dir D)
    ++ yielding fs base_dir l.
Proof. unfold yielding. cbn [omap list_omap]. by destruct (yield _ _ _). Qed.

Lemma yielding_StronglySorted (l : list string) :
  StronglySorted String.le l ->
  StronglySorted String.le (yielding fs base_dir l).*1.
Proof.
  induction 1 as [|D l Hl IH Hall]; [constructor|].
  rewrite yielding_cons.
  destruct (yield fs base_dir D) as [v|]; [|done]. cbn.
  constructor; [done|]. apply Forall_forall. intros x Hx.
  apply yielding_fst_elem_of in Hx as [Hx _].
  by eapply Forall_forall in Hall.
Qed.

Lemma yielding_NoDup (l : list string) :
  NoDup l -> NoDup (yielding fs base_dir l).*1.
Proof.
  induction 1 as [|D l Hnin Hl IH]; [constructor|].
  rewrite yielding_cons.
  destruct (yield fs base_dir D) as [v|]; [|done]. cbn.
  constructor; [|done]. by intros [? _]%yielding_fst_elem_of.
Qed.

Lemma yielding_values (d : gmap string float) (l : list string) :
  (forall D v, D ∈ l -> yield fs base_dir D = Some v -> d !! D = Some v) ->
  values_of d (yielding fs base_dir l).*1 = (yielding fs base_dir l).*2.
Proof.
  induction l as [|D l IH]; intros H; [done|].
  rewrite yielding_cons.
  assert (values_of d (yielding fs base_dir l).*1
          = (yielding fs base_dir l).*2) as IH'
    by (apply IH; intros D' v' ?; apply H; by right).
  destruct (yield fs base_dir D) as [v|] eqn:Hy; [|done].
  change (values_of d (D :: (yielding fs base_dir l).*1)
          = v :: (yielding fs base_dir l).*2).
  rewrite (values_of_cons d D v); [by rewrite IH'|]. apply H; [by left|done].
Qed.

(** With distinct names in the listing, the entities of the chart are
    the entries that yield a value, in sorted order. *)
Lemma entities_yielding (names : list string) :
  NoDup names ->
  entities fs base_dir names = (yielding fs base_dir (sorted names)).*1
  /\ entity_values fs base_dir names
     = (yielding fs base_dir (sorted names)).*2.
Proof.
  intros Hnd.
  assert (entities fs base_dir names
          = (yielding fs base_dir (sorted names)).*1) as He.
  { apply (Sorted_unique String.le).
    - apply entities_Sorted.
    - apply StronglySorted_Sorted, yielding_StronglySorted.
      apply Sorted_StronglySorted; [apply _|apply sorted_Sorted].
    - apply NoDup_Permutation.
      + apply entities_NoDup.
      + by apply yielding_NoDup, sorted_NoDup.
      + intros D. rewrite entities_elem_of, yielding_fst_elem_of,
          sorted_elem_of. unfold is_Some. split.
        * intros (v & Hin & Hc). split; [done|]. exists v.
          by apply yield_contributes.
        * intros (Hin & v & Hy). exists v. split; [done|].
          by apply yield_contributes. }
  split; [done|]. unfold entity_values. rewrite He.
  apply yielding_values. intros D v HD Hy.
  apply aggregated_lookup. split; [by apply sorted_elem_of|].
  by apply yield_contributes.
Qed.

End Found.

(** X9.  With distinct names in the listing, each entity of the chart
    has exactly one line [Found D: v%] and one row of the printed
    summary, in the ascending order of the bars and with the value of
    its bar; the row shows the display name. *)
Theorem found_lines_and_rows (py_sum : list float -> float)
        (drawable : string -> bool)
        (fs : filesystem) (p : process) (names : list string) :
  fs (base_dir_of p) = Some (Dir names) ->
  NoDup names ->
  let apps := entities fs (base_dir_of p) names in
  let values := entity_values fs (base_dir_of p) names in
  found_lines (trace (main py_sum drawable fs p)) = zip apps values
  /\ summary_rows (trace (main py_sum drawable fs p))
     = zip (get_full_app_name <$> apps) values.
Proof.
  intros H Hnd apps values.
  destruct (entities_yielding fs (base_dir_of p) names Hnd) as [He Hv].
  fold apps in He. fold values in Hv.
  assert (zip apps values = yielding fs (base_dir_of p) (sorted names)) as Hzip
    by (rewrite He, Hv; apply zip_fst_snd).
  destruct (bind_events_found fs (base_dir_of p) (sorted names)) as [Hf Hr].
  destruct (decide (aggregated fs (base_dir_of p) names = ∅)) as [Hd|Hd].
  - rewrite (main_no_data py_sum drawable fs p names H Hd). cbn [trace fst].
    unfold scan_events. rewrite found_lines_app, summary_rows_app, Hf, Hr, Hzip.
    split; [by rewrite app_nil_r|].
    assert (apps = []) as ->; [|done].
    unfold apps, entities. rewrite Hd. unfold keys.
    by rewrite map_to_list_empty.
  - rewrite (main_chart py_sum drawable fs p names H Hd). cbn [trace fst].
    unfold scan_events. rewrite found_lines_app, summary_rows_app, Hf, Hr.
    fold apps values.
    destruct (summary_trace_rows drawable apps values
                (average_of py_sum values)) as [-> ->].
    by rewrite app_nil_r, Hzip.
Qed.

Lemma demo_names_NoDup :
  NoDup ["tc_gnutella31"; "notes.txt"; "locked"; "bfs_gnutella31"; "scratch"].
Proof. apply (bool_decide_unpack _). by vm_compute. Qed.

Lemma found_lines_and_rows_witness :
  found_lines (trace (main seq_sum draws_all demo_fs demo_process))
  = zip (entities demo_fs "results"
           ["tc_gnutella31"; "notes.txt"; "locked"; "bfs_gnutella31";
            "scratch"])
        (entity_values demo_fs "results"
           ["tc_gnutella31"; "notes.txt"; "locked"; "bfs_gnutella31";
            "scratch"]).
Proof.
  apply (found_lines_and_rows seq_sum draws_all demo_fs demo_process _ eq_refl
           demo_names_NoDup).
Defined.

(** ** The order of floats and [max] *)
Section Max.

Ltac compare_cases :=
  repeat match goal with
         | |- context [Z.compare ?x ?y] => destruct (Z.compare_spec x y)
         | |- context [Pos.compare_cont Eq ?x ?y] =>
             change (Pos.compare_cont Eq x y) with (Pos.compare x y);
             destruct (Pos.compare_spec x y)
         | H : context [Z.compare ?x ?y] |- _ => destruct (Z.compare_spec x y)
         | H : context [Pos.compare_cont Eq ?x ?y] |- _ =>
             change (Pos.compare_cont Eq x y) with (Pos.compare x y) in H;
             destruct (Pos.compare_spec x y)
         end.

Lemma SFltb_trans (a b c : float) :
  SFltb a b = true -> SFltb b c = true -> SFltb a c = true.
Proof.
  unfold SFltb, SFcompare.
  destruct a as [[]|[]| |[] ma ea], b as [[]|[]| |[] mb eb],
    c as [[]|[]| |[] mc ec]; try done;
    intros Hab Hbc; cbn in *; compare_cases; cbn in *; try done; lia.
Qed.

Lemma SFltb_between (a b c : float) :
  SFltb a c = true -> is_nan b = false ->
  SFltb a b = true \/ SFltb b c = true.
Proof.
  unfold SFltb, SFcompare.
  destruct a as [[]|[]| |[] ma ea], b as [[]|[]| |[] mb eb],
    c as [[]|[]| |[] mc ec]; try done;
    intros Hac _; cbn in *; try (by left); try (by right);
    compare_cases; cbn in *; try done; try (by left); try (by right); lia.
Qed.

Lemma fold_max_nan (l : list float) :
  fold_left (fun m x => if fgt x m then x else m) l S754_nan = S754_nan.
Proof. induction l as [|x l IH]; [done|]. cbn. by destruct x. Qed.

(** The fold of [max] ends on its start or on an element, and nothing
    it has seen is greater than what it ends on. *)
Lemma fold_max_spec (l : list float) (m0 : float) :
  let r := fold_left (fun m x => if fgt x m then x else m) l m0 in
  (r = m0 \/ r ∈ l)
  /\ fgt m0 r = false
  /\ forall x, x ∈ l -> fgt x r = false.
Proof.
  revert m0. induction l as [|x l IH]; intros m0; cbn zeta.
  - split; [by left|]. split; [|by intros x ?%elem_of_nil].
    unfold fgt, SFltb, SFcompare.
    destruct m0 as [[]|[]| |[] m e]; try done; cbn;
      rewrite Z.compare_refl; change (Pos.compare_cont Eq m m)
        with (Pos.compare m m); by rewrite Pos.compare_refl.
  - cbn [fold_left]. specialize (IH (if fgt x m0 then x else m0)).
    cbn zeta in IH.
    set (r := fold_left _ l _) in *.
    destruct IH as (Hr & Hm1 & Hall). unfold fgt in *.
    destruct (SFltb m0 x) eqn:Hx.
    + split; [destruct Hr as [->|Hr]; right; [by left|by right]|].
      split.
      * destruct (SFltb r m0) eqn:Hrm; [|done].
        by rewrite (SFltb_trans r m0 x Hrm Hx) in Hm1.
      * intros y [->|Hy]%elem_of_cons; [done|by apply Hall].
    + split; [destruct Hr as [->|Hr]; [by left|right; by right]|].
      split; [done|].
      intros y [->|Hy]%elem_of_cons; [|by apply Hall].
      destruct (SFltb r x) eqn:Hry; [|done].
      destruct (is_nan m0) eqn:Hnan.
      * destruct m0; try done. subst r. by rewrite fold_max_nan in Hry.
      * destruct (SFltb_between r m0 x Hry Hnan); congruence.
Qed.

Lemma max_float_spec (l : list float) :
  l <> [] ->
  max_float l ∈ l /\ forall x, x ∈ l -> fgt x (max_float l) = false.
Proof.
  destruct l as [|v l]; [done|]. intros _. cbn [max_float].
  destruct (fold_max_spec l v) as (Hr & Hv & Hall). split.
  - destruct Hr as [->|Hr]; [by left|by right].
  - intros x [->|Hx]%elem_of_cons; [done|by apply Hall].
Qed.

End Max.

(** X10.  The top of the y axis is five above [max(values)], and
    [max(values)] is the height of a bar that no bar is greater than,
    the bar of the average included. *)
Theorem ylim_five_above_highest_bar (py_sum : list float -> float)
        (drawable : string -> bool)
        (fs : filesystem) (p : process) (names : list string)
        (D : string) (v : float) :
  fs (base_dir_of p) = Some (Dir names) ->
  D ∈ names ->
  contributes fs (base_dir_of p) D v ->
  let values := entity_values fs (base_dir_of p) names in
  let heights := values ++ [average_of py_sum values] in
  Ylim 0 (fadd (max_float heights) (of_nat 5))
  ∈ plots (trace (main py_sum drawable fs p))
  /\ max_float heights ∈ heights
  /\ forall h, h ∈ heights -> fgt h (max_float heights) = false.
Proof.
  intros H Hin Hc values heights.
  assert (aggregated fs (base_dir_of p) names <> ∅) as Hd
    by by eapply aggregated_nonempty.
  split; [|apply max_float_spec; by destruct values].
  rewrite (main_plots py_sum drawable fs p names H Hd). fold values heights.
  apply made_calls_limit, limit_calls_Ylim.
Qed.

Lemma ylim_five_above_highest_bar_witness :
  exists top, Ylim 0 top ∈ plots (trace (main seq_sum draws_all demo_fs demo_process)).
Proof.
  eexists.
  apply (ylim_five_above_highest_bar seq_sum draws_all demo_fs demo_process _
           "tc_gnutella31" _ eq_refl demo_listed demo_contributes).
Defined.

(** X11.  [get_full_app_name] either leaves a name as it is, when the
    name is none of the five short names of the table, or shows it as
    the display name the table gives it, which is another string.  No
    display name is itself a short name, so mapping twice is mapping
    once. *)
Theorem display_name_cases (app : string) :
  (((app ∉ name_map.*1) /\ get_full_app_name app = app)
   \/ ((app, get_full_app_name app) ∈ name_map
       /\ get_full_app_name app <> app))
  /\ get_full_app_name (get_full_app_name app) = get_full_app_name app.
Proof.
  destruct (decide (app ∈ name_map.*1)) as [Hin|Hout].
  - cbn in Hin.
    repeat (apply elem_of_cons in Hin as [->|Hin];
            [split; [right; split|reflexivity];
             [apply (bool_decide_unpack _); by vm_compute
             |intros H; vm_compute in H; discriminate]|]).
    by apply elem_of_nil in Hin.
  - unfold get_full_app_name.
    rewrite !(dict_get_default name_map app app Hout).
    by split; [left|].
Qed.
